(** * Tic-tac-toe: the board and its negamax search (game.py)

    A shallow embedding of [game.py]: the enumerations [Players], [Results],
    [NegamaxResults] and [NegamaxPlayers], the mutable [Board] and the
    [Negamax] search, followed by the properties of the specification.

    Conventions of the embedding.
    - Python integers are [Z]; list subscripts follow Python (a negative
      subscript counts from the end, anything else out of range raises
      [IndexError]).
    - A method that mutates the board is a computation in the monad [M]: it
      takes the board and gives an outcome together with the board it leaves
      behind, also when it raises.  A method that only reads the board is a
      function of the board into [outcome].
    - The object [NotImplemented] has no counterpart in the data types: the
      two branches of the source that produce it end the run at once with an
      exception of their own ([NotImplementedOther], [NotImplementedNeg]), so
      a run that ends otherwise never took them.
    - [_negamax] recurses on the board it mutates; the embedding recurses on a
      fuel counter and ends with [OutOfFuel] when it is used up. *)

From stdpp Require Import base list gmap.
From Stdlib Require Import ZArith Lia Bool.
Open Scope Z_scope.

(* ------------------------------------------------------------------ *)
(** ** Outcomes and the two monads *)

Inductive exn : Type :=
| IndexError            (* list subscript out of range *)
| ValueError            (* Enum(v) for a v that is the value of no member *)
| TypeError             (* arithmetic on None *)
| NotImplementedOther   (* Players.other_player(Players.unplayed) *)
| NotImplementedNeg.    (* -NegamaxResults.worst *)

Inductive outcome (A : Type) : Type :=
| Return (a : A)
| Raise (e : exn)
| OutOfFuel.
Arguments Return {A} a.
Arguments Raise {A} e.
Arguments OutOfFuel {A}.

#[global] Instance outcome_ret : MRet outcome := fun A a => Return a.
#[global] Instance outcome_bind : MBind outcome := fun A B f m =>
  match m with
  | Return a => f a
  | Raise e => Raise e
  | OutOfFuel => OutOfFuel
  end.

(** Python list subscripts. *)
Definition index_of {A} (l : list A) (i : Z) : option nat :=
  let n := Z.of_nat (length l) in
  if (0 <=? i) && (i <? n) then Some (Z.to_nat i)
  else if (- n <=? i) && (i <? 0) then Some (Z.to_nat (n + i))
  else None.

(** [l[i]] *)
Definition getitem {A} (l : list A) (i : Z) : outcome A :=
  match index_of l i with
  | Some k => match l !! k with Some x => Return x | None => Raise IndexError end
  | None => Raise IndexError
  end.

(** [l[i] = x] *)
Definition setitem {A} (l : list A) (i : Z) (x : A) : outcome (list A) :=
  match index_of l i with
  | Some k => Return (<[k:=x]> l)
  | None => Raise IndexError
  end.

(** [l.pop()] on a non-empty list: the last element and what is left. *)
Definition pop {A} (l : list A) : option (A * list A) :=
  match rev l with
  | [] => None
  | x :: r => Some (x, rev r)
  end.

(* ------------------------------------------------------------------ *)
(** ** class Players *)

Module Players.
Inductive t : Type := player_one | player_two | unplayed.

Definition value (p : t) : Z :=
  match p with
  | player_one => 1
  | player_two => -1
  | unplayed => 0
  end.

Definition eqb (p q : t) : bool :=
  match p, q with
  | player_one, player_one | player_two, player_two | unplayed, unplayed => true
  | _, _ => false
  end.

Definition max_line_sum : Z := 3.

Definition other_player (current_player : t) : outcome t :=
  if eqb current_player unplayed then Raise NotImplementedOther
  else
    let is_player_one := eqb current_player player_one in
    Return (if is_player_one then player_two else player_one).
End Players.

(* ------------------------------------------------------------------ *)
(** ** class Results *)

Module Results.
Inductive t : Type := player_one_win | player_two_win | tie | no_win.

(** [no_win] has the value [None]. *)
Definition value (r : t) : option Z :=
  match r with
  | player_one_win => Some 1
  | player_two_win => Some (-1)
  | tie => Some 0
  | no_win => None
  end.

(** [Results(v)] for a number [v]. *)
Definition of_value (v : Z) : outcome t :=
  if v =? 1 then Return player_one_win
  else if v =? -1 then Return player_two_win
  else if v =? 0 then Return tie
  else Raise ValueError.

Definition eqb (r s : t) : bool :=
  match r, s with
  | player_one_win, player_one_win | player_two_win, player_two_win
  | tie, tie | no_win, no_win => true
  | _, _ => false
  end.
End Results.

(* ------------------------------------------------------------------ *)
(** ** class Board *)

Definition move : Type := Z * Z.

Module Board.
Record t : Type := mk {
  _player : Players.t;
  _moves : list move;
  _board : list (list Players.t)
}.

(** [Board()] *)
Definition __init__ : t :=
  {| _player := Players.player_one;
     _moves := [];
     _board := [[Players.unplayed; Players.unplayed; Players.unplayed];
                [Players.unplayed; Players.unplayed; Players.unplayed];
                [Players.unplayed; Players.unplayed; Players.unplayed]] |}.

(** Computations that mutate the board. *)
Definition M (A : Type) : Type := t -> outcome A * t.

#[global] Instance M_bind : MBind M := fun A B f m b =>
  match m b with
  | (Return a, b') => f a b'
  | (Raise e, b') => (Raise e, b')
  | (OutOfFuel, b') => (OutOfFuel, b')
  end.

(** Run a read-only method, or any fallible expression, inside [M]. *)
Definition reads {A} (f : t -> outcome A) : M A := fun b => (f b, b).
Definition lift {A} (o : outcome A) : M A := fun b => (o, b).
Definition out_of_fuel {A} : M A := fun b => (OutOfFuel, b).
Definition ret {A} (a : A) : M A := fun b => (Return a, b).

(** [self._board[row][column]] *)
Definition cell (row column : Z) (b : t) : outcome Players.t :=
  r ← getitem (_board b) row; getitem r column.

(** [self._board[row][column] = v].  The three rows are distinct list
    objects (see [__init__] and [reset]), so the update in place of row
    [row] is the replacement of that row in the grid. *)
Definition set_cell (row column : Z) (v : Players.t) : M unit := fun b =>
  match index_of (_board b) row with
  | Some k =>
      match _board b !! k with
      | Some r =>
          match setitem r column v with
          | Return r' =>
              (Return tt, {| _player := _player b; _moves := _moves b;
                             _board := <[k:=r']> (_board b) |})
          | Raise e => (Raise e, b)
          | OutOfFuel => (OutOfFuel, b)
          end
      | None => (Raise IndexError, b)
      end
  | None => (Raise IndexError, b)
  end.

Definition set_player (p : Players.t) : M unit := fun b =>
  (Return tt, {| _player := p; _moves := _moves b; _board := _board b |}).

Definition set_moves (ms : list move) : M unit := fun b =>
  (Return tt, {| _player := _player b; _moves := ms; _board := _board b |}).

Definition make_move (row column : Z) : M bool :=
  v ← reads (cell row column);
  if Players.eqb v Players.unplayed then
    p ← reads (fun b => Return (_player b));
    _ ← set_cell row column p;
    ms ← reads (fun b => Return (_moves b));
    _ ← set_moves (ms ++ [(row, column)]);
    p' ← lift (Players.other_player p);
    _ ← set_player p';
    ret true
  else ret false.

(** The result [False] of the source is [None] here. *)
Definition undo_move : M (option move) :=
  ms ← reads (fun b => Return (_moves b));
  match pop ms with
  | Some ((row, column), rest) =>
      _ ← set_moves rest;
      _ ← set_cell row column Players.unplayed;
      p ← reads (fun b => Return (_player b));
      p' ← lift (Players.other_player p);
      _ ← set_player p';
      ret (Some (row, column))
  | None => ret None
  end.

Definition reset : M unit := fun _ => (Return tt, __init__).

(** The sum of the values of three cells. *)
Definition line_sum (c0 c1 c2 : move) (b : t) : outcome Z :=
  x ← cell c0.1 c0.2 b;
  y ← cell c1.1 c1.2 b;
  z ← cell c2.1 c2.2 b;
  Return (Players.value x + Players.value y + Players.value z).

(** [_board_full]: the flag is cleared at every unplayed cell. *)
Fixpoint board_full_row (row : Z) (columns : list Z) (full : bool) (b : t)
  : outcome bool :=
  match columns with
  | [] => Return full
  | column :: columns' =>
      v ← cell row column b;
      board_full_row row columns'
        (if Players.eqb v Players.unplayed then false else full) b
  end.

Fixpoint board_full_rows (rows : list Z) (full : bool) (b : t) : outcome bool :=
  match rows with
  | [] => Return full
  | row :: rows' =>
      full' ← board_full_row row [0; 1; 2] full b;
      board_full_rows rows' full' b
  end.

Definition _board_full (b : t) : outcome bool :=
  board_full_rows [0; 1; 2] true b.

(** The two diagonals and the full-board test of [check_for_win]. *)
Definition check_diagonals (b : t) : outcome (bool * Results.t) :=
  top_to_bottom ← line_sum (0, 0) (1, 1) (2, 2) b;
  bottom_to_top ← line_sum (2, 0) (1, 1) (0, 2) b;
  if Z.abs top_to_bottom =? Players.max_line_sum then
    w ← Results.of_value (top_to_bottom / Players.max_line_sum);
    Return (true, w)
  else if Z.abs bottom_to_top =? Players.max_line_sum then
    w ← Results.of_value (bottom_to_top / Players.max_line_sum);
    Return (true, w)
  else
    full ← _board_full b;
    if (full : bool) then Return (true, Results.tie) else Return (false, Results.no_win).

(** The loop [for i in range(3)] of [check_for_win]; it returns from inside
    at the first complete column or row.  The quotient [column / 3] is
    taken only when [abs(column) == 3], where it is exact. *)
Fixpoint check_rows_columns (range : list Z) (b : t) : outcome (bool * Results.t) :=
  match range with
  | [] => check_diagonals b
  | i :: range' =>
      column ← line_sum (0, i) (1, i) (2, i) b;
      row ← line_sum (i, 0) (i, 1) (i, 2) b;
      if Z.abs column =? Players.max_line_sum then
        w ← Results.of_value (column / Players.max_line_sum);
        Return (true, w)
      else if Z.abs row =? Players.max_line_sum then
        w ← Results.of_value (row / Players.max_line_sum);
        Return (true, w)
      else check_rows_columns range' b
  end.

Definition check_for_win (b : t) : outcome (bool * Results.t) :=
  check_rows_columns [0; 1; 2] b.

(** [zip] of two index lists. *)
Definition zip (xs ys : list Z) : list move := combine xs ys.

Definition streak_diagonals (indices : list Z) (b : t) : outcome (list move) :=
  top_to_bottom ← line_sum (0, 0) (1, 1) (2, 2) b;
  bottom_to_top ← line_sum (2, 0) (1, 1) (0, 2) b;
  if Z.abs top_to_bottom =? Players.max_line_sum then
    Return (zip indices indices)
  else if Z.abs bottom_to_top =? Players.max_line_sum then
    let indices2 := rev indices in
    Return (zip indices2 indices)
  else Return [].

Fixpoint streak_rows_columns (range : list Z) (indices : list Z) (b : t)
  : outcome (list move) :=
  match range with
  | [] => streak_diagonals indices b
  | i :: range' =>
      column ← line_sum (0, i) (1, i) (2, i) b;
      row ← line_sum (i, 0) (i, 1) (i, 2) b;
      let indices2 := [i; i; i] in
      if Z.abs column =? Players.max_line_sum then Return (zip indices indices2)
      else if Z.abs row =? Players.max_line_sum then Return (zip indices2 indices)
      else streak_rows_columns range' indices b
  end.

Definition get_winning_streak (b : t) : outcome (list move) :=
  let indices := [0; 1; 2] in
  streak_rows_columns [0; 1; 2] indices b.

Fixpoint possible_moves_row (row : Z) (columns : list Z) (possible_moves : list move)
  (b : t) : outcome (list move) :=
  match columns with
  | [] => Return possible_moves
  | column :: columns' =>
      v ← cell row column b;
      possible_moves_row row columns'
        (if Players.eqb v Players.unplayed
         then possible_moves ++ [(row, column)] else possible_moves) b
  end.

Fixpoint possible_moves_rows (rows : list Z) (possible_moves : list move) (b : t)
  : outcome (list move) :=
  match rows with
  | [] => Return possible_moves
  | row :: rows' =>
      possible_moves' ← possible_moves_row row [0; 1; 2] possible_moves b;
      possible_moves_rows rows' possible_moves' b
  end.

Definition get_possible_moves (b : t) : outcome (list move) :=
  possible_moves_rows [0; 1; 2] [] b.
End Board.

(* ------------------------------------------------------------------ *)
(** ** class NegamaxResults *)

Module NegamaxResults.
Inductive t : Type := player | other_player | tie | worst.

Definition value (r : t) : Z :=
  match r with
  | player => 1
  | other_player => -1
  | tie => 0
  | worst => -100
  end.

(** [NegamaxResults(v)] *)
Definition of_value (v : Z) : outcome t :=
  if v =? 1 then Return player
  else if v =? -1 then Return other_player
  else if v =? 0 then Return tie
  else if v =? -100 then Return worst
  else Raise ValueError.

Definition __gt__ (self other : t) : bool := value other <? value self.
Definition __lt__ (self other : t) : bool := value self <? value other.
Definition __eq__ (self other : t) : bool := value self =? value other.
Definition __le__ (self other : t) : bool := value self <=? value other.
Definition __ge__ (self other : t) : bool := value other <=? value self.

(** [__neg__] *)
Definition __neg__ (self : t) : outcome t :=
  if __eq__ self worst then Raise NotImplementedNeg
  else of_value (- value self).

(** The builtin [max(a, b)]: [b] only when it is greater than [a]. *)
Definition max (a b : t) : t := if __gt__ b a then b else a.
End NegamaxResults.

(* ------------------------------------------------------------------ *)
(** ** class NegamaxPlayers *)

Module NegamaxPlayers.
Inductive t : Type := player | opponent.

Definition value (p : t) : Z :=
  match p with
  | player => 1
  | opponent => -1
  end.

(** [NegamaxPlayers(v)] *)
Definition of_value (v : Z) : outcome t :=
  if v =? 1 then Return player
  else if v =? -1 then Return opponent
  else Raise ValueError.

Definition eqb (p q : t) : bool :=
  match p, q with
  | player, player | opponent, opponent => true
  | _, _ => false
  end.

Definition other_player (current_player : t) : t :=
  let is_player := eqb current_player player in
  if is_player then opponent else player.
End NegamaxPlayers.

(* ------------------------------------------------------------------ *)
(** ** class Negamax *)

Module Negamax.
Import Board.

(** The loop over the children of a node of [_negamax]; [rec] is the
    recursive call.  The loop is left by [break] once [alpha >= beta]. *)
Fixpoint negamax_loop
    (rec : NegamaxPlayers.t -> NegamaxResults.t -> NegamaxResults.t ->
           M (NegamaxResults.t * option move))
    (player : NegamaxPlayers.t) (children : list move)
    (alpha beta best_value : NegamaxResults.t) (best_move : option move)
  : M (NegamaxResults.t * option move) :=
  match children with
  | [] => ret (best_value, best_move)
  | child :: children' =>
      let '(row, column) := child in
      _ ← make_move row column;
      nbeta ← lift (NegamaxResults.__neg__ beta);
      nalpha ← lift (NegamaxResults.__neg__ alpha);
      r ← rec (NegamaxPlayers.other_player player) nbeta nalpha;
      child_value ← lift (NegamaxResults.__neg__ r.1);
      let improved := NegamaxResults.__gt__ child_value best_value in
      let best_value' := if improved then child_value else best_value in
      let best_move' := if improved then Some child else best_move in
      let alpha' := NegamaxResults.max alpha child_value in
      _ ← undo_move;
      if NegamaxResults.__ge__ alpha' beta then ret (best_value', best_move')
      else negamax_loop rec player children' alpha' beta best_value' best_move'
  end.

Fixpoint _negamax (fuel : nat) (player : NegamaxPlayers.t)
    (alpha beta : NegamaxResults.t) : M (NegamaxResults.t * option move) :=
  match fuel with
  | O => out_of_fuel
  | S fuel' =>
      status ← reads check_for_win;
      let '(game_over, winner) := status in
      if (game_over : bool) then
        w ← lift (match Results.value winner with
                  | Some v => Return v
                  | None => Raise TypeError
                  end);
        result ← lift (NegamaxResults.of_value (w * NegamaxPlayers.value player));
        ret (result, None)
      else
        children ← reads get_possible_moves;
        negamax_loop (_negamax fuel') player children alpha beta
          NegamaxResults.worst None
  end.

(** The loop over the children of the root in [get_next_move]. *)
Fixpoint next_move_loop (fuel : nat) (player : NegamaxPlayers.t)
    (children : list move) (best_value : NegamaxResults.t)
    (best_moves : list move) : M (NegamaxResults.t * list move) :=
  match children with
  | [] => ret (best_value, best_moves)
  | child :: children' =>
      let '(row, column) := child in
      _ ← make_move row column;
      r ← _negamax fuel (NegamaxPlayers.other_player player)
            NegamaxResults.other_player NegamaxResults.player;
      child_value ← lift (NegamaxResults.__neg__ r.1);
      let '(best_value', best_moves') :=
        if NegamaxResults.__gt__ child_value best_value then (child_value, [child])
        else if NegamaxResults.__eq__ child_value best_value
             then (best_value, best_moves ++ [child])
             else (best_value, best_moves) in
      _ ← undo_move;
      next_move_loop fuel player children' best_value' best_moves'
  end.

(** [randrange] stands for [random.randrange]: it is called at most once in
    a call of [get_next_move], so a function of its argument stands for any
    source of random numbers.  The [print] before the last line writes to
    the console only and is left out. *)
Definition get_next_move (fuel : nat) (randrange : Z -> Z)
    (player : Players.t) : M move :=
  player' ← lift (NegamaxPlayers.of_value (Players.value player));
  children ← reads get_possible_moves;
  best ← next_move_loop fuel player' children NegamaxResults.worst [];
  let '(best_value, best_moves) := best in
  let len := Z.of_nat (length best_moves) in
  if negb (len =? 0) then lift (getitem best_moves (randrange len))
  else lift (getitem best_moves 0).
End Negamax.

Import Board.

(* ------------------------------------------------------------------ *)
(** ** Well-formed boards *)

(** The turn indicator is one of the two players. *)
Definition turn_ok (b : Board.t) : Prop := _player b <> Players.unplayed.

(** The grid has three rows of three cells. *)
Definition grid_ok (g : list (list Players.t)) : Prop :=
  length g = 3%nat /\ Forall (fun r => length r = 3%nat) g.

Definition wf (b : Board.t) : Prop := grid_ok (_board b) /\ turn_ok b.

(** Number of unplayed cells of a grid. *)
Definition unplayed_in_row (r : list Players.t) : nat :=
  sum_list_with (fun v => if Players.eqb v Players.unplayed then 1%nat else 0%nat) r.

Definition count_unplayed (g : list (list Players.t)) : nat :=
  sum_list_with unplayed_in_row g.

(** A run of successful [make_move] calls, one per element of [ms]. *)
Fixpoint make_moves (ms : list move) (b : Board.t) : option Board.t :=
  match ms with
  | [] => Some b
  | (row, column) :: ms' =>
      match make_move row column b with
      | (Return true, b') => make_moves ms' b'
      | _ => None
      end
  end.

(** The result that names [p] as the winner. *)
Definition win_of (p : Players.t) : Results.t :=
  match p with
  | Players.player_one => Results.player_one_win
  | Players.player_two => Results.player_two_win
  | Players.unplayed => Results.tie
  end.

(* ------------------------------------------------------------------ *)
(** ** The 3^9 grids

    A method that only reads the grid is settled on all well-formed boards
    by running it on every grid; the functions [..._checked] below are the
    tests that are run. *)

Definition all_cells : list Players.t :=
  [Players.player_one; Players.player_two; Players.unplayed].

Definition all_rows : list (list Players.t) :=
  a ← all_cells; b ← all_cells; c ← all_cells; [[a; b; c]].

Definition all_grids : list (list (list Players.t)) :=
  r0 ← all_rows; r1 ← all_rows; r2 ← all_rows; [[r0; r1; r2]].

(** The board with grid [g], player one to move and no move recorded. *)
Definition of_grid (g : list (list Players.t)) : Board.t :=
  {| _player := Players.player_one; _moves := []; _board := g |}.

(** The legal moves are cells of the grid that hold [unplayed]. *)
Definition is_unplayed_cell (b : Board.t) (m : move) : bool :=
  match cell m.1 m.2 b with
  | Return v => Players.eqb v Players.unplayed
  | _ => false
  end.

Definition in_range (m : move) : bool :=
  (0 <=? m.1) && (m.1 <? 3) && (0 <=? m.2) && (m.2 <? 3).

Definition moves_checked (g : list (list Players.t)) : bool :=
  match get_possible_moves (of_grid g) with
  | Return ms =>
      forallb (fun m => is_unplayed_cell (of_grid g) m && in_range m) ms
      && (length ms =? count_unplayed g)%nat
  | _ => false
  end.

(** The result of [check_for_win] is well formed, and a board that is not
    over has an unplayed cell. *)
Definition win_checked (g : list (list Players.t)) : bool :=
  match check_for_win (of_grid g) with
  | Return (true, w) => negb (Results.eqb w Results.no_win)
  | Return (false, w) => Results.eqb w Results.no_win && (0 <? count_unplayed g)%nat
  | _ => false
  end.

(* ------------------------------------------------------------------ *)
(** ** Notions for the search *)

(** A recursive call that returns a value other than [worst] and restores
    every well-formed board with fewer than [n] unplayed cells. *)
Definition rec_ok (n : nat)
    (rec : NegamaxPlayers.t -> NegamaxResults.t -> NegamaxResults.t ->
           M (NegamaxResults.t * option move)) : Prop :=
  forall b player alpha beta,
    wf b -> (count_unplayed (_board b) < n)%nat ->
    alpha <> NegamaxResults.worst -> beta <> NegamaxResults.worst ->
    exists v mv, rec player alpha beta b = (Return (v, mv), b) /\
                 v <> NegamaxResults.worst.

(** The value that [get_next_move] finds for the move [child] on board [b]:
    the move is made, the position is searched for the opponent, and the
    result is negated ([worst] stands in when one of the steps fails). *)
Definition move_value (fuel : nat) (player : NegamaxPlayers.t) (b : Board.t)
    (child : move) : NegamaxResults.t :=
  match make_move child.1 child.2 b with
  | (Return _, b1) =>
      match Negamax._negamax fuel (NegamaxPlayers.other_player player)
              NegamaxResults.other_player NegamaxResults.player b1 with
      | (Return r, _) =>
          match NegamaxResults.__neg__ r.1 with
          | Return v => v
          | _ => NegamaxResults.worst
          end
      | _ => NegamaxResults.worst
      end
  | _ => NegamaxResults.worst
  end.

(** One round of the loop on the pair [(best_value, best_moves)]. *)
Definition update_best (val : move -> NegamaxResults.t)
    (acc : NegamaxResults.t * list move) (child : move)
  : NegamaxResults.t * list move :=
  if NegamaxResults.__gt__ (val child) acc.1 then (val child, [child])
  else if NegamaxResults.__eq__ (val child) acc.1 then (acc.1, acc.2 ++ [child])
  else acc.

(* ------------------------------------------------------------------ *)
(** ** Lines of the grid *)

Definition line : Type := move * move * move.

Definition column_line (i : Z) : line := ((0, i), (1, i), (2, i)).
Definition row_line (i : Z) : line := ((i, 0), (i, 1), (i, 2)).
Definition top_to_bottom : line := ((0, 0), (1, 1), (2, 2)).
Definition bottom_to_top : line := ((2, 0), (1, 1), (0, 2)).

(** The eight lines in the order in which [check_for_win] and
    [get_winning_streak] test them: for each index the column, then the row;
    the diagonals last. *)
Definition scan_order : list line :=
  [column_line 0; row_line 0; column_line 1; row_line 1;
   column_line 2; row_line 2; top_to_bottom; bottom_to_top].

(** The order described by the specification: for each index the row, then
    the column; the diagonals last. *)
Definition spec_scan_order : list line :=
  [row_line 0; column_line 0; row_line 1; column_line 1;
   row_line 2; column_line 2; top_to_bottom; bottom_to_top].

Definition cells_of (l : line) : list move := [l.1.1; l.1.2; l.2].

Definition sum_of (b : Board.t) (l : line) : outcome Z :=
  line_sum l.1.1 l.1.2 l.2 b.

(** The line [l] sums to [s]. *)
Definition sums_to (s : Z) (b : Board.t) (l : line) : bool :=
  match sum_of b l with
  | Return v => v =? s
  | _ => false
  end.

(** The line [l] is a win: its sum is 3 or -3. *)
Definition complete (b : Board.t) (l : line) : bool :=
  sums_to 3 b l || sums_to (-3) b l.

(** The first line of [order] that is a win. *)
Definition first_complete (order : list line) (b : Board.t) : option line :=
  find (complete b) order.

(** The winner named by a complete line. *)
Definition owner (b : Board.t) (l : line) : Results.t :=
  if sums_to 3 b l then Results.player_one_win else Results.player_two_win.

(** All nine cells are occupied. *)
Definition all_occupied (b : Board.t) : bool :=
  forallb (fun row =>
    forallb (fun column => negb (is_unplayed_cell b (row, column))) [0; 1; 2])
    [0; 1; 2].

(** The result of [check_for_win] in terms of the lines. *)
Definition result_by_lines (b : Board.t) : bool * Results.t :=
  match existsb (sums_to 3 b) scan_order, existsb (sums_to (-3) b) scan_order with
  | true, false => (true, Results.player_one_win)
  | false, true => (true, Results.player_two_win)
  | true, true =>
      match first_complete scan_order b with
      | Some l => (true, owner b l)
      | None => (false, Results.no_win)
      end
  | false, false =>
      if all_occupied b then (true, Results.tie) else (false, Results.no_win)
  end.

Definition result_checked (g : list (list Players.t)) : bool :=
  match check_for_win (of_grid g) with
  | Return (over, w) =>
      Bool.eqb over (result_by_lines (of_grid g)).1 &&
      Results.eqb w (result_by_lines (of_grid g)).2
  | _ => false
  end.

(** [get_winning_streak] and [check_for_win] against the first complete line
    of [scan_order]. *)
Definition moves_eqb (xs ys : list move) : bool :=
  bool_decide (xs = ys).

Definition streak_checked (g : list (list Players.t)) : bool :=
  let b := of_grid g in
  match first_complete scan_order b, get_winning_streak b, check_for_win b with
  | Some l, Return ms, Return (over, w) =>
      moves_eqb ms (cells_of l) && over && Results.eqb w (owner b l)
  | None, Return ms, Return (over, w) =>
      moves_eqb ms [] &&
      Results.eqb w (if over then Results.tie else Results.no_win)
  | _, _, _ => false
  end.

(** The result of [check_for_win] when the first complete line of [order]
    decides. *)
Definition result_by_first_line (order : list line) (b : Board.t)
  : bool * Results.t :=
  match first_complete order b with
  | Some l => (true, owner b l)
  | None =>
      if all_occupied b then (true, Results.tie) else (false, Results.no_win)
  end.

Definition first_line_checked (g : list (list Players.t)) : bool :=
  match check_for_win (of_grid g) with
  | Return (over, w) =>
      Bool.eqb over (result_by_first_line spec_scan_order (of_grid g)).1 &&
      Results.eqb w (result_by_first_line spec_scan_order (of_grid g)).2 &&
      Bool.eqb over (result_by_first_line scan_order (of_grid g)).1 &&
      Results.eqb w (result_by_first_line scan_order (of_grid g)).2
  | _ => false
  end.

(* ------------------------------------------------------------------ *)
(** ** The tie-break and winning moves *)

(** [random.randrange(n)] gives a number from [0] up to [n - 1]. *)
Definition randrange_ok (randrange : Z -> Z) : Prop :=
  forall n, 0 < n -> 0 <= randrange n < n.

(** The list [best_moves] at the end of the loop of [get_next_move]. *)
Definition best_moves_of (fuel : nat) (player : NegamaxPlayers.t) (b : Board.t)
    (children : list move) : list move :=
  (fold_left (update_best (move_value fuel player b)) children
     (NegamaxResults.worst, [])).2.

(** The move [m] wins at once for [p]: it can be made, and [check_for_win]
    then reports the game over with [p] as the winner. *)
Definition wins_now (p : Players.t) (m : move) (b : Board.t) : Prop :=
  exists b', make_move m.1 m.2 b = (Return true, b') /\
             check_for_win b' = Return (true, win_of p).

(* ------------------------------------------------------------------ *)
(** ** Boards used as examples *)

(** X on (0,0) and (0,1), O on (1,0) and (2,1); X to move. *)
Definition fork_moves : list move := [(0, 0); (1, 0); (0, 1); (2, 1)].
Definition fork_board : Board.t :=
  {| _player := Players.player_one;
     _moves := fork_moves;
     _board := [[Players.player_one; Players.player_one; Players.unplayed];
                [Players.player_two; Players.unplayed; Players.unplayed];
                [Players.unplayed; Players.player_two; Players.unplayed]] |}.

(** X completes row 0 and column 0 with the last move, at the corner. *)
Definition corner_moves : list move :=
  [(0, 1); (1, 1); (0, 2); (1, 2); (1, 0); (2, 1); (2, 0); (2, 2); (0, 0)].
Definition corner_board : Board.t :=
  {| _player := Players.player_two;
     _moves := corner_moves;
     _board := [[Players.player_one; Players.player_one; Players.player_one];
                [Players.player_one; Players.player_two; Players.player_two];
                [Players.player_one; Players.player_two; Players.player_two]] |}.

(** A full board without a winner. *)
Definition tie_moves : list move :=
  [(0, 0); (0, 1); (0, 2); (1, 1); (1, 0); (1, 2); (2, 1); (2, 0); (2, 2)].
Definition tie_board : Board.t :=
  {| _player := Players.player_two;
     _moves := tie_moves;
     _board := [[Players.player_one; Players.player_two; Players.player_one];
                [Players.player_one; Players.player_two; Players.player_two];
                [Players.player_two; Players.player_one; Players.player_one]] |}.

(* ------------------------------------------------------------------ *)
(** ** Sequences of calls on a board *)

(** A call of one of the mutating methods of [Board]. *)
Inductive call : Type :=
| call_make_move (row column : Z)
| call_undo_move
| call_reset.

(** The board after a call, whatever the call returns or raises. *)
Definition perform (c : call) (b : Board.t) : Board.t :=
  match c with
  | call_make_move row column => (make_move row column b).2
  | call_undo_move => (undo_move b).2
  | call_reset => (reset b).2
  end.

Definition perform_all (cs : list call) (b : Board.t) : Board.t :=
  fold_left (fun b c => perform c b) cs b.

(** [n] calls of [undo_move] in a row, with their results. *)
Fixpoint undo_moves (n : nat) (b : Board.t) : list (option move) * Board.t :=
  match n with
  | O => ([], b)
  | S n' =>
      match undo_move b with
      | (Return r, b') => let '(rs, b'') := undo_moves n' b' in (r :: rs, b'')
      | (_, b') => ([], b')
      end
  end.

(** The board is the replay of its own move stack. *)
Definition replayed (b : Board.t) : Prop :=
  make_moves (_moves b) Board.__init__ = Some b.

(* ------------------------------------------------------------------ *)
(** ** More tests run on every grid *)

(** The nine coordinates, row by row. *)
Definition all_coords : list move :=
  [(0, 0); (0, 1); (0, 2); (1, 0); (1, 1); (1, 2); (2, 0); (2, 1); (2, 2)].

Definition possible_moves_checked (g : list (list Players.t)) : bool :=
  match get_possible_moves (of_grid g) with
  | Return ms => bool_decide (ms = List.filter (is_unplayed_cell (of_grid g)) all_coords)
  | _ => false
  end.

Definition board_full_checked (g : list (list Players.t)) : bool :=
  match _board_full (of_grid g), get_possible_moves (of_grid g),
        check_for_win (of_grid g) with
  | Return full, Return ms, Return (over, _) =>
      Bool.eqb full (bool_decide (ms = [])) && (implb full over)
  | _, _, _ => false
  end.

(** The three cells of a non-empty streak hold the mark of the winner. *)
Definition streak_cells_checked (g : list (list Players.t)) : bool :=
  let b := of_grid g in
  match get_winning_streak b, check_for_win b with
  | Return [], Return (over, w) =>
      Results.eqb w (if over then Results.tie else Results.no_win)
  | Return [c0; c1; c2], Return (over, w) =>
      match cell c0.1 c0.2 b, cell c1.1 c1.2 b, cell c2.1 c2.2 b with
      | Return p0, Return p1, Return p2 =>
          negb (Players.eqb p0 Players.unplayed) && Players.eqb p0 p1 &&
          Players.eqb p0 p2 && over && Results.eqb w (win_of p0)
      | _, _, _ => false
      end
  | _, _ => false
  end.

(** After a move on an unplayed cell of a board that is not over, only the
    player who moved can have won. *)
Definition mover_checked (g : list (list Players.t)) : bool :=
  match check_for_win (of_grid g) with
  | Return (false, _) =>
      forallb (fun p =>
        forallb (fun k =>
          forallb (fun j =>
            match g !! k with
            | Some r =>
                match r !! j with
                | Some Players.unplayed =>
                    match check_for_win (of_grid (<[k := <[j := p]> r]> g)) with
                    | Return (over, w) =>
                        Results.eqb w Results.no_win && negb over ||
                        over && (Results.eqb w Results.tie || Results.eqb w (win_of p))
                    | _ => false
                    end
                | _ => true
                end
            | None => true
            end) [0; 1; 2]%nat) [0; 1; 2]%nat)
        [Players.player_one; Players.player_two]
  | _ => true
  end.

(* ------------------------------------------------------------------ *)
(** ** The search without window *)

(** The board after the move [m]. *)
Definition after (m : move) (b : Board.t) : Board.t := (make_move m.1 m.2 b).2.

(** The negamax recursion of [_negamax] without the window: every child of
    every node is searched, and the value of a node is the greatest of the
    negated values of its children ([-100], the value of [worst], when there
    is none or the fuel is used up). *)
Fixpoint plain_negamax (fuel : nat) (player : NegamaxPlayers.t) (b : Board.t) : Z :=
  match fuel with
  | O => -100
  | S fuel' =>
      match check_for_win b with
      | Return (true, winner) =>
          match Results.value winner with
          | Some v => v * NegamaxPlayers.value player
          | None => -100
          end
      | Return (false, _) =>
          match get_possible_moves b with
          | Return children =>
              foldr (fun child best =>
                       Z.max (- plain_negamax fuel'
                                  (NegamaxPlayers.other_player player) (after child b))
                             best)
                    (-100) children
          | _ => -100
          end
      | _ => -100
      end
  end.

(** The value of a position for the player who is to move in it. *)
Definition position_value (player : NegamaxPlayers.t) (b : Board.t) : Z :=
  plain_negamax 10 player b.

(** What a value returned for the window [(alpha, beta)] says about the
    value [x] without window: it is [x] itself when it lies inside the
    window, a bound from above when it is at most [alpha], and a bound from
    below when it is at least [beta]. *)
Definition within_window (alpha beta v : NegamaxResults.t) (x : Z) : Prop :=
  (NegamaxResults.value v <= NegamaxResults.value alpha -> x <= NegamaxResults.value v) /\
  (NegamaxResults.value alpha < NegamaxResults.value v < NegamaxResults.value beta ->
   NegamaxResults.value v = x) /\
  (NegamaxResults.value beta <= NegamaxResults.value v -> NegamaxResults.value v <= x).

Definition rec_sound (n : nat)
    (rec : NegamaxPlayers.t -> NegamaxResults.t -> NegamaxResults.t ->
           M (NegamaxResults.t * option move))
    (pv : NegamaxPlayers.t -> Board.t -> Z) : Prop :=
  forall b player alpha beta,
    wf b -> (count_unplayed (_board b) < n)%nat ->
    alpha <> NegamaxResults.worst -> beta <> NegamaxResults.worst ->
    NegamaxResults.value alpha < NegamaxResults.value beta ->
    exists v mv, rec player alpha beta b = (Return (v, mv), b) /\
                 v <> NegamaxResults.worst /\
                 within_window alpha beta v (pv player b) /\
                 -1 <= pv player b <= 1.

(* ------------------------------------------------------------------ *)
(** ** class Bidict (display.py)

    A dict in which every entry [key -> value] also exists as
    [value -> key].  Keys and values live in one dict, so they are modelled
    by one type [K] of hashable objects; the dict is a [gmap K K].  A method
    gives a status and the dict it leaves behind, also when it raises. *)

Module Bidict.
Inductive status : Type :=
| Done
| KeyError.   (* a key that is not in the dict *)

Section Bidict.
Context {K : Type} `{Countable K}.

(** [dict.__delitem__(self, key)] *)
Definition dict_delitem (key : K) (d : gmap K K) : status * gmap K K :=
  match d !! key with
  | Some _ => (Done, delete key d)
  | None => (KeyError, d)
  end.

(** [dict.__setitem__(self, key, value)] *)
Definition dict_setitem (key value : K) (d : gmap K K) : gmap K K :=
  <[key := value]> d.

Definition __delitem__ (key : K) (d : gmap K K) : status * gmap K K :=
  match d !! key with
  | None => (KeyError, d)
  | Some partner =>
      match dict_delitem partner d with
      | (Done, d1) => dict_delitem key d1
      | (KeyError, d1) => (KeyError, d1)
      end
  end.

Definition __setitem__ (key value : K) (d : gmap K K) : status * gmap K K :=
  match (if bool_decide (is_Some (d !! key)) then __delitem__ key d else (Done, d)) with
  | (KeyError, d1) => (KeyError, d1)
  | (Done, d1) =>
      match (if bool_decide (is_Some (d1 !! value)) then __delitem__ value d1
             else (Done, d1)) with
      | (KeyError, d2) => (KeyError, d2)
      | (Done, d2) => (Done, dict_setitem value key (dict_setitem key value d2))
      end
  end.

(** Every entry has its mirror image. *)
Definition paired (d : gmap K K) : Prop :=
  forall k v, d !! k = Some v -> d !! v = Some k.

(** No key is its own partner. *)
Definition no_self_pair (d : gmap K K) : Prop :=
  forall k, d !! k <> Some k.

(** Assignments [d[key] = value], one after the other; [None] when one of
    them raises. *)
Fixpoint assign_all (kvs : list (K * K)) (d : gmap K K) : option (gmap K K) :=
  match kvs with
  | [] => Some d
  | (key, value) :: kvs' =>
      match __setitem__ key value d with
      | (Done, d') => assign_all kvs' d'
      | (KeyError, _) => None
      end
  end.
End Bidict.
End Bidict.

(* ------------------------------------------------------------------ *)
(** ** Lists and subscripts *)

Lemma index_of_lt {A} (l : list A) i k :
  index_of l i = Some k -> (k < length l)%nat.
Proof.
  unfold index_of.
  destruct (0 <=? i) eqn:H0; destruct (i <? Z.of_nat (length l)) eqn:H1;
    destruct (- Z.of_nat (length l) <=? i) eqn:H2; destruct (i <? 0) eqn:H3;
    simpl; intros [= <-]; lia.
Qed.

Lemma index_of_length {A} (l l' : list A) i :
  length l = length l' -> index_of l i = index_of l' i.
Proof. unfold index_of. intros ->. reflexivity. Qed.

Lemma getitem_Return {A} (l : list A) i x :
  getitem l i = Return x <->
  exists k, index_of l i = Some k /\ l !! k = Some x.
Proof.
  unfold getitem. split.
  - destruct (index_of l i) as [k|]; [|discriminate].
    destruct (l !! k) eqn:E; [|discriminate].
    intros [= ->]. eauto.
  - intros (k & -> & ->). reflexivity.
Qed.

Lemma pop_app {A} (l : list A) x : pop (l ++ [x]) = Some (x, l).
Proof. unfold pop. rewrite rev_unit, rev_involutive. reflexivity. Qed.

Lemma cell_Return row column b v :
  cell row column b = Return v <->
  exists k r j, index_of (_board b) row = Some k /\ _board b !! k = Some r /\
                index_of r column = Some j /\ r !! j = Some v.
Proof.
  unfold cell. split.
  - destruct (getitem (_board b) row) as [r| |] eqn:E; simpl; try discriminate.
    intros H. apply getitem_Return in E as (k & ? & ?).
    apply getitem_Return in H as (j & ? & ?). eauto 8.
  - intros (k & r & j & H1 & H2 & H3 & H4).
    assert (getitem (_board b) row = Return r) as -> by (apply getitem_Return; eauto).
    simpl. apply getitem_Return; eauto.
Qed.

Lemma other_player_Return p q :
  Players.other_player p = Return q ->
  p <> Players.unplayed /\ q <> Players.unplayed /\ q <> p /\
  Players.other_player q = Return p.
Proof. destruct p; cbv; intros [= <-]; repeat split; congruence. Qed.

Lemma other_player_ok p :
  p <> Players.unplayed -> exists q, Players.other_player p = Return q.
Proof. destruct p; cbv; eauto; congruence. Qed.

(* ------------------------------------------------------------------ *)
(** ** make_move and undo_move *)

Lemma bind_Return {A B} (m : M A) (f : A -> M B) b a b' :
  m b = (Return a, b') -> (m ≫= f) b = f a b'.
Proof. unfold mbind, M_bind. intros ->. reflexivity. Qed.

(** What [make_move] does on a cell that holds [unplayed]. *)
Lemma make_move_unplayed row column b k r j q :
  index_of (_board b) row = Some k -> _board b !! k = Some r ->
  index_of r column = Some j -> r !! j = Some Players.unplayed ->
  Players.other_player (_player b) = Return q ->
  make_move row column b =
    (Return true,
     {| _player := q; _moves := _moves b ++ [(row, column)];
        _board := <[k := <[j := _player b]> r]> (_board b) |}).
Proof.
  intros Hk Hr Hj Hv Hq. unfold make_move.
  assert (cell row column b = Return Players.unplayed) as Hc
    by (apply cell_Return; eauto 8).
  unfold mbind at 1, M_bind at 1, reads at 1. rewrite Hc. simpl.
  unfold mbind, M_bind, reads, set_cell, set_moves, set_player, lift, ret, setitem.
  simpl. rewrite Hk, Hr, Hj. simpl. rewrite Hq. reflexivity.
Qed.

(** What [make_move] does on a cell that is taken. *)
Lemma make_move_taken row column b v :
  cell row column b = Return v -> v <> Players.unplayed ->
  make_move row column b = (Return false, b).
Proof.
  intros Hc Hv. unfold make_move.
  unfold mbind at 1, M_bind at 1, reads at 1. rewrite Hc.
  destruct v; try congruence; reflexivity.
Qed.

(** [undo_move] takes back the move that [make_move] has just made. *)
Lemma undo_after_make p ms g row column k r j q :
  index_of g row = Some k -> g !! k = Some r ->
  index_of r column = Some j -> r !! j = Some Players.unplayed ->
  Players.other_player p = Return q ->
  undo_move {| _player := q; _moves := ms ++ [(row, column)];
               _board := <[k := <[j := p]> r]> g |} =
    (Return (Some (row, column)), {| _player := p; _moves := ms; _board := g |}).
Proof.
  intros Hk Hr Hj Hv Hq. unfold undo_move.
  unfold mbind at 1, M_bind at 1, reads at 1. cbn [_moves].
  rewrite pop_app.
  pose proof (index_of_lt _ _ _ Hk) as Hlk.
  pose proof (index_of_lt _ _ _ Hj) as Hlj.
  apply other_player_Return in Hq as (_ & _ & _ & Hq).
  unfold mbind, M_bind, reads, set_cell, set_moves, set_player, lift, ret, setitem.
  cbn [_board _moves _player].
  rewrite (index_of_length _ g) by apply length_insert. rewrite Hk.
  rewrite list_lookup_insert_eq by assumption.
  rewrite (index_of_length _ r) by apply length_insert. rewrite Hj.
  cbn [_board _moves _player]. rewrite Hq. cbn [_board _moves _player].
  rewrite !list_insert_insert_eq.
  rewrite (list_insert_id r j) by assumption.
  rewrite (list_insert_id g k) by assumption.
  reflexivity.
Qed.

Lemma sum_list_with_insert {A} (f : A -> nat) (l : list A) j x y :
  l !! j = Some x ->
  (sum_list_with f (<[j := y]> l) + f x = sum_list_with f l + f y)%nat.
Proof.
  revert j. induction l as [|a l IH]; intros [|j]; simpl; try discriminate.
  - intros [= ->]. lia.
  - intros H. specialize (IH _ H). lia.
Qed.

Lemma count_unplayed_insert g k r j p :
  g !! k = Some r -> r !! j = Some Players.unplayed -> p <> Players.unplayed ->
  (count_unplayed (<[k := <[j := p]> r]> g) < count_unplayed g)%nat.
Proof.
  intros Hr Hv Hp. unfold count_unplayed.
  pose proof (sum_list_with_insert unplayed_in_row g k r (<[j := p]> r) Hr) as H1.
  pose proof (sum_list_with_insert
    (fun v => if Players.eqb v Players.unplayed then 1%nat else 0%nat)
    r j Players.unplayed p Hv) as H2.
  fold (unplayed_in_row (<[j := p]> r)) in H2. fold (unplayed_in_row r) in H2.
  simpl in H2. destruct p; try congruence; simpl in H2; lia.
Qed.

Lemma grid_ok_insert g k r j (p : Players.t) :
  g !! k = Some r -> grid_ok g -> grid_ok (<[k := <[j := p]> r]> g).
Proof.
  intros Hr [Hl Hall]. split.
  - rewrite length_insert. exact Hl.
  - apply Forall_insert; [exact Hall|].
    rewrite length_insert.
    rewrite Forall_forall in Hall. apply Hall.
    apply list_elem_of_lookup. eauto.
Qed.

(** On an unplayed cell [make_move] succeeds, and [undo_move] then gives the
    board back as it was. *)
Lemma make_then_undo b row column :
  turn_ok b -> cell row column b = Return Players.unplayed ->
  exists b',
    make_move row column b = (Return true, b') /\
    undo_move b' = (Return (Some (row, column)), b) /\
    Players.other_player (_player b) = Return (_player b') /\
    _moves b' = _moves b ++ [(row, column)] /\
    cell row column b' = Return (_player b) /\
    (grid_ok (_board b) -> grid_ok (_board b')) /\
    (count_unplayed (_board b') < count_unplayed (_board b))%nat.
Proof.
  intros Ht Hc. apply cell_Return in Hc as (k & r & j & Hk & Hr & Hj & Hv).
  destruct (other_player_ok _ Ht) as [q Hq].
  eexists. split; [eapply make_move_unplayed; eassumption|].
  pose proof (index_of_lt _ _ _ Hk) as Hlk.
  pose proof (index_of_lt _ _ _ Hj) as Hlj.
  split; [|split; [|split; [|split; [|split]]]]; cbn [_player _moves _board].
  - destruct b as [p ms g]. cbn [_player _moves _board] in *.
    eapply undo_after_make; eassumption.
  - exact Hq.
  - reflexivity.
  - apply cell_Return. exists k, (<[j := _player b]> r), j.
    cbn [_board].
    rewrite (index_of_length _ (_board b)) by apply length_insert.
    rewrite (index_of_length _ r) by apply length_insert.
    rewrite !list_lookup_insert_eq by assumption. auto.
  - apply grid_ok_insert; assumption.
  - apply count_unplayed_insert; assumption.
Qed.

(* ------------------------------------------------------------------ *)
(** ** Every well-formed grid is among the 3^9 grids *)

Lemma all_rows_complete (r : list Players.t) : length r = 3%nat -> r ∈ all_rows.
Proof.
  destruct r as [|a [|b [|c [|]]]]; try discriminate. intros _.
  apply list_elem_of_In.
  destruct a, b, c; vm_compute; tauto.
Qed.

Lemma all_grids_complete g : grid_ok g -> g ∈ all_grids.
Proof.
  intros [Hl Hall].
  destruct g as [|r0 [|r1 [|r2 [|]]]]; try discriminate.
  apply Forall_cons in Hall as [H0 Hall].
  apply Forall_cons in Hall as [H1 Hall].
  apply Forall_cons in Hall as [H2 _].
  unfold all_grids.
  apply list_elem_of_bind. exists r0. split; [|by apply all_rows_complete].
  apply list_elem_of_bind. exists r1. split; [|by apply all_rows_complete].
  apply list_elem_of_bind. exists r2. split; [|by apply all_rows_complete].
  apply list_elem_of_singleton. reflexivity.
Qed.

Lemma for_all_grids (P : list (list Players.t) -> bool) :
  forallb P all_grids = true -> forall g, grid_ok g -> P g = true.
Proof.
  intros H g Hg. rewrite forallb_forall in H. apply H.
  apply list_elem_of_In. by apply all_grids_complete.
Qed.

Lemma check_for_win_of_grid b : check_for_win b = check_for_win (of_grid (_board b)).
Proof. reflexivity. Qed.

Lemma get_possible_moves_of_grid b :
  get_possible_moves b = get_possible_moves (of_grid (_board b)).
Proof. reflexivity. Qed.

Lemma get_winning_streak_of_grid b :
  get_winning_streak b = get_winning_streak (of_grid (_board b)).
Proof. reflexivity. Qed.

Lemma cell_of_grid row column b : cell row column b = cell row column (of_grid (_board b)).
Proof. reflexivity. Qed.

Lemma moves_checked_all : forallb moves_checked all_grids = true.
Proof. vm_compute. reflexivity. Qed.

Lemma possible_moves_ok b :
  grid_ok (_board b) ->
  exists ms, get_possible_moves b = Return ms /\
    length ms = count_unplayed (_board b) /\
    forall m, m ∈ ms ->
      cell m.1 m.2 b = Return Players.unplayed /\
      0 <= m.1 < 3 /\ 0 <= m.2 < 3.
Proof.
  intros Hg. pose proof (for_all_grids _ moves_checked_all _ Hg) as H.
  unfold moves_checked in H. rewrite get_possible_moves_of_grid.
  destruct (get_possible_moves (of_grid (_board b))) as [ms| |]; try discriminate.
  apply andb_true_iff in H as [H Hlen].
  exists ms. split; [reflexivity|]. split; [by apply Nat.eqb_eq|].
  intros m Hm. rewrite forallb_forall in H.
  apply list_elem_of_In in Hm. apply H in Hm.
  apply andb_true_iff in Hm as [Hu Hr].
  unfold is_unplayed_cell in Hu. rewrite cell_of_grid.
  destruct (cell m.1 m.2 (of_grid (_board b))) as [v| |]; try discriminate.
  unfold in_range in Hr. split; [destruct v; try discriminate; reflexivity | lia].
Qed.

Lemma win_checked_all : forallb win_checked all_grids = true.
Proof. vm_compute. reflexivity. Qed.

Lemma check_for_win_ok b :
  grid_ok (_board b) ->
  (exists w v, check_for_win b = Return (true, w) /\ Results.value w = Some v /\
               -1 <= v <= 1) \/
  (check_for_win b = Return (false, Results.no_win) /\
   (0 < count_unplayed (_board b))%nat).
Proof.
  intros Hg. pose proof (for_all_grids _ win_checked_all _ Hg) as H.
  unfold win_checked in H. rewrite check_for_win_of_grid.
  destruct (check_for_win (of_grid (_board b))) as [[[] w]| |]; try discriminate.
  - left. exists w. destruct w; try discriminate; simpl; eexists; (split; [reflexivity|]);
      (split; [reflexivity|lia]).
  - right. apply andb_true_iff in H as [Hw Hc].
    destruct w; try discriminate. split; [reflexivity|].
    by apply Nat.ltb_lt.
Qed.

(* ------------------------------------------------------------------ *)
(** ** The search values *)

Lemma neg_ok v :
  v <> NegamaxResults.worst ->
  exists v', NegamaxResults.__neg__ v = Return v' /\ v' <> NegamaxResults.worst /\
             NegamaxResults.value v' = - NegamaxResults.value v.
Proof. destruct v; try congruence; intros _; eexists; cbv; repeat split; congruence. Qed.

Lemma neg_Return v v' :
  NegamaxResults.__neg__ v = Return v' -> v <> NegamaxResults.worst.
Proof. destruct v; cbv; congruence. Qed.

Lemma value_inj v w : NegamaxResults.value v = NegamaxResults.value w -> v = w.
Proof. destruct v, w; cbv; congruence. Qed.

Lemma gt_worst v : v <> NegamaxResults.worst -> NegamaxResults.__gt__ v NegamaxResults.worst = true.
Proof. destruct v; try congruence; reflexivity. Qed.

Lemma not_gt_not_worst v w :
  v <> NegamaxResults.worst -> NegamaxResults.__gt__ v w = false -> w <> NegamaxResults.worst.
Proof. destruct v, w; try congruence; cbv; congruence. Qed.

Lemma max_not_worst a v :
  v <> NegamaxResults.worst -> NegamaxResults.max a v <> NegamaxResults.worst.
Proof. destruct a, v; cbv; congruence. Qed.

Lemma terminal_value w v (player : NegamaxPlayers.t) :
  Results.value w = Some v -> -1 <= v <= 1 ->
  exists r, NegamaxResults.of_value (v * NegamaxPlayers.value player) = Return r /\
            r <> NegamaxResults.worst.
Proof.
  destruct w; simpl; intros [= <-] _; destruct player; eexists; cbv; split;
    try reflexivity; congruence.
Qed.

(* ------------------------------------------------------------------ *)
(** ** The search returns and leaves the board as it found it *)

Lemma bind_lift {A B} (o : outcome A) (f : A -> M B) b a :
  o = Return a -> (lift o ≫= f) b = f a b.
Proof. intros ->. reflexivity. Qed.

Lemma bind_reads {A B} (g : Board.t -> outcome A) (f : A -> M B) b a :
  g b = Return a -> (reads g ≫= f) b = f a b.
Proof. unfold mbind, M_bind, reads. intros ->. reflexivity. Qed.

Lemma negamax_loop_total rec b player children :
  rec_ok (count_unplayed (_board b)) rec -> wf b ->
  Forall (fun m => cell m.1 m.2 b = Return Players.unplayed) children ->
  forall alpha beta best_value best_move,
    alpha <> NegamaxResults.worst -> beta <> NegamaxResults.worst ->
    exists v mv,
      Negamax.negamax_loop rec player children alpha beta best_value best_move b
        = (Return (v, mv), b) /\
      (children <> [] \/ best_value <> NegamaxResults.worst ->
       v <> NegamaxResults.worst).
Proof.
  intros Hrec [Hg Ht]. induction children as [|[row column] children IH];
    intros Hall alpha beta best_value best_move Ha Hb.
  - exists best_value, best_move. split; [reflexivity|]. intros [?|?]; congruence.
  - apply Forall_cons in Hall as [Hc Hall]. simpl in Hc.
    destruct (make_then_undo b row column Ht Hc)
      as (b1 & Hmk & Hun & Hq & _ & _ & Hg1 & Hcnt).
    destruct (neg_ok _ Hb) as (nbeta & Hnb & Hnb' & _).
    destruct (neg_ok _ Ha) as (nalpha & Hna & Hna' & _).
    assert (wf b1) as Hwf1.
    { split; [auto|]. apply other_player_Return in Hq. unfold turn_ok. tauto. }
    destruct (Hrec b1 (NegamaxPlayers.other_player player) nbeta nalpha
                Hwf1 Hcnt Hnb' Hna') as (v1 & mv1 & Hr & Hv1).
    destruct (neg_ok _ Hv1) as (cv & Hcv & Hcv' & _).
    cbn [Negamax.negamax_loop].
    rewrite (bind_Return _ _ _ _ _ Hmk).
    rewrite (bind_lift _ _ _ _ Hnb), (bind_lift _ _ _ _ Hna).
    rewrite (bind_Return _ _ _ _ _ Hr). cbn [fst].
    rewrite (bind_lift _ _ _ _ Hcv).
    rewrite (bind_Return _ _ _ _ _ Hun).
    set (bv' := if NegamaxResults.__gt__ cv best_value then cv else best_value).
    assert (bv' <> NegamaxResults.worst) as Hbv'.
    { unfold bv'. destruct (NegamaxResults.__gt__ cv best_value) eqn:E; [assumption|].
      eapply not_gt_not_worst; eassumption. }
    destruct (NegamaxResults.__ge__ (NegamaxResults.max alpha cv) beta).
    + eexists _, _. split; [reflexivity|]. intros _. assumption.
    + destruct (IH Hall (NegamaxResults.max alpha cv) beta bv'
                  (if NegamaxResults.__gt__ cv best_value then Some (row, column) else best_move)
                  (max_not_worst _ _ Hcv') Hb) as (v & mv & Hl & Hv).
      exists v, mv. split; [exact Hl|]. intros _. apply Hv. right. assumption.
Qed.

Lemma negamax_total fuel :
  forall b player alpha beta,
    wf b -> (count_unplayed (_board b) < fuel)%nat ->
    alpha <> NegamaxResults.worst -> beta <> NegamaxResults.worst ->
    exists v mv, Negamax._negamax fuel player alpha beta b = (Return (v, mv), b) /\
                 v <> NegamaxResults.worst.
Proof.
  induction fuel as [|fuel IH]; intros b player alpha beta Hwf Hcnt Ha Hb; [lia|].
  cbn [Negamax._negamax].
  destruct (check_for_win_ok b (proj1 Hwf)) as [(w & v & Hw & Hv & Hr)|[Hw Hpos]].
  - rewrite (bind_reads _ _ _ _ Hw). cbn iota. rewrite Hv.
    destruct (terminal_value w v player Hv Hr) as (r & Hof & Hne).
    rewrite (bind_lift _ _ _ v eq_refl).
    rewrite (bind_lift _ _ _ _ Hof).
    exists r, None. split; [reflexivity|assumption].
  - rewrite (bind_reads _ _ _ _ Hw). cbn iota.
    destruct (possible_moves_ok b (proj1 Hwf)) as (ms & Hms & Hlen & Hall).
    rewrite (bind_reads _ _ _ _ Hms).
    destruct (negamax_loop_total (Negamax._negamax fuel) b player ms) with
      (alpha := alpha) (beta := beta) (best_value := NegamaxResults.worst)
      (best_move := @None move) as (v & mv & Hl & Hv); try assumption.
    + intros b' p' a' be' Hwf' Hc' Ha' Hb'. apply IH; try assumption. lia.
    + apply Forall_forall. intros m Hm. apply (Hall m Hm).
    + exists v, mv. split; [exact Hl|]. apply Hv. left.
      destruct ms; [simpl in Hlen; lia | discriminate].
Qed.

(* ------------------------------------------------------------------ *)
(** ** The loop of get_next_move *)

Lemma count_le_9 g : grid_ok g -> (count_unplayed g <= 9)%nat.
Proof.
  intros Hg. apply Nat.leb_le.
  apply (for_all_grids (fun g => (count_unplayed g <=? 9)%nat)); [|exact Hg].
  vm_compute. reflexivity.
Qed.

Lemma move_value_not_worst fuel player b child :
  wf b -> (count_unplayed (_board b) <= fuel)%nat ->
  cell child.1 child.2 b = Return Players.unplayed ->
  move_value fuel player b child <> NegamaxResults.worst.
Proof.
  intros [Hg Ht] Hf Hc.
  destruct (make_then_undo b _ _ Ht Hc) as (b1 & Hmk & _ & Hq & _ & _ & Hg1 & Hcnt).
  assert (wf b1) as Hwf1.
  { split; [auto|]. apply other_player_Return in Hq. unfold turn_ok. tauto. }
  destruct (negamax_total fuel b1 (NegamaxPlayers.other_player player)
              NegamaxResults.other_player NegamaxResults.player Hwf1)
    as (v & mv & Hr & Hv); try discriminate; [lia|].
  destruct (neg_ok _ Hv) as (cv & Hcv & Hcv' & _).
  unfold move_value. rewrite Hmk, Hr. cbn [fst]. rewrite Hcv. exact Hcv'.
Qed.

Lemma next_move_loop_fold fuel player b children :
  wf b -> (count_unplayed (_board b) <= fuel)%nat ->
  Forall (fun m => cell m.1 m.2 b = Return Players.unplayed) children ->
  forall best_value best_moves,
    Negamax.next_move_loop fuel player children best_value best_moves b =
      (Return (fold_left (update_best (move_value fuel player b)) children
                 (best_value, best_moves)), b).
Proof.
  intros [Hg Ht] Hf. induction children as [|[row column] children IH];
    intros Hall best_value best_moves; [reflexivity|].
  apply Forall_cons in Hall as [Hc Hall]. simpl in Hc.
  destruct (make_then_undo b row column Ht Hc)
    as (b1 & Hmk & Hun & Hq & _ & _ & Hg1 & Hcnt).
  assert (wf b1) as Hwf1.
  { split; [auto|]. apply other_player_Return in Hq. unfold turn_ok. tauto. }
  destruct (negamax_total fuel b1 (NegamaxPlayers.other_player player)
              NegamaxResults.other_player NegamaxResults.player Hwf1)
    as (v & mv & Hr & Hv); try discriminate; [lia|].
  destruct (neg_ok _ Hv) as (cv & Hcv & Hcv' & _).
  assert (move_value fuel player b (row, column) = cv) as Hval.
  { unfold move_value. cbn [fst snd]. rewrite Hmk, Hr. cbn [fst]. rewrite Hcv.
    reflexivity. }
  cbn [Negamax.next_move_loop fold_left].
  rewrite (bind_Return _ _ _ _ _ Hmk).
  rewrite (bind_Return _ _ _ _ _ Hr). cbn [fst].
  rewrite (bind_lift _ _ _ _ Hcv).
  unfold update_best at 2. cbn [fst snd]. rewrite Hval.
  destruct (NegamaxResults.__gt__ cv best_value);
    [|destruct (NegamaxResults.__eq__ cv best_value)];
    rewrite (bind_Return _ _ _ _ _ Hun); apply IH; assumption.
Qed.

(** *** What the fold keeps in [best_moves] *)

Section Fold.
Variable val : move -> NegamaxResults.t.

Lemma fold_best_subset children : forall acc m,
  m ∈ (fold_left (update_best val) children acc).2 -> m ∈ acc.2 \/ m ∈ children.
Proof.
  induction children as [|c children IH]; intros acc m Hm; [left; exact Hm|].
  cbn [fold_left] in Hm. apply IH in Hm as [Hm|Hm]; [|right; by right].
  unfold update_best in Hm.
  destruct (NegamaxResults.__gt__ (val c) acc.1);
    [|destruct (NegamaxResults.__eq__ (val c) acc.1)]; cbn [fst snd] in Hm.
  - apply list_elem_of_singleton in Hm as ->. right. by left.
  - apply elem_of_app in Hm as [Hm|Hm]; [by left|].
    apply list_elem_of_singleton in Hm as ->. right. by left.
  - by left.
Qed.

Lemma fold_best_valued children : forall acc,
  (forall m, m ∈ acc.2 -> val m = acc.1) ->
  forall m, m ∈ (fold_left (update_best val) children acc).2 ->
            val m = (fold_left (update_best val) children acc).1.
Proof.
  induction children as [|c children IH]; intros acc Hacc; [exact Hacc|].
  cbn [fold_left]. apply IH. intros m Hm. unfold update_best in *.
  destruct (NegamaxResults.__gt__ (val c) acc.1);
    [|destruct (NegamaxResults.__eq__ (val c) acc.1) eqn:E]; cbn [fst snd] in *.
  - by apply list_elem_of_singleton in Hm as ->.
  - apply elem_of_app in Hm as [Hm|Hm]; [by apply Hacc|].
    apply list_elem_of_singleton in Hm as ->.
    apply value_inj. by apply Z.eqb_eq.
  - by apply Hacc.
Qed.

Lemma update_best_ge acc c :
  NegamaxResults.value acc.1 <= NegamaxResults.value (update_best val acc c).1 /\
  NegamaxResults.value (val c) <= NegamaxResults.value (update_best val acc c).1.
Proof.
  unfold update_best, NegamaxResults.__gt__, NegamaxResults.__eq__.
  destruct (NegamaxResults.value acc.1 <? NegamaxResults.value (val c)) eqn:E1;
    [|destruct (NegamaxResults.value (val c) =? NegamaxResults.value acc.1) eqn:E2];
    cbn [fst snd]; lia.
Qed.

Lemma fold_best_ge children : forall acc,
  NegamaxResults.value acc.1
    <= NegamaxResults.value (fold_left (update_best val) children acc).1 /\
  forall c, c ∈ children ->
    NegamaxResults.value (val c)
      <= NegamaxResults.value (fold_left (update_best val) children acc).1.
Proof.
  induction children as [|c children IH]; intros acc.
  - split; [simpl; lia|]. intros c Hc. by apply elem_of_nil in Hc.
  - cbn [fold_left]. destruct (IH (update_best val acc c)) as [H1 H2].
    pose proof (update_best_ge acc c) as [H3 H4].
    split; [lia|]. intros c' Hc'. apply elem_of_cons in Hc' as [->|Hc']; [lia|].
    by apply H2.
Qed.

(** While the best value stays as it is, the list of best moves only grows. *)
Lemma fold_best_keeps children : forall acc m,
  m ∈ acc.2 ->
  (fold_left (update_best val) children acc).1 = acc.1 ->
  m ∈ (fold_left (update_best val) children acc).2.
Proof.
  induction children as [|c children IH]; intros acc m Hm Heq; [exact Hm|].
  cbn [fold_left] in *.
  pose proof (fold_best_ge children (update_best val acc c)) as [H1 _].
  pose proof (update_best_ge acc c) as [H2 _].
  rewrite Heq in H1.
  assert ((update_best val acc c).1 = acc.1) as Hsame by (apply value_inj; lia).
  apply IH; [|congruence].
  revert Hsame. unfold update_best, NegamaxResults.__gt__.
  destruct (NegamaxResults.value acc.1 <? NegamaxResults.value (val c)) eqn:E1;
    [|destruct (NegamaxResults.__eq__ (val c) acc.1)]; cbn [fst snd]; intros Hs.
  - apply Z.ltb_lt in E1. rewrite Hs in E1. lia.
  - apply elem_of_app. by left.
  - exact Hm.
Qed.

(** A move whose value is the final best value is among the best moves. *)
Lemma fold_best_contains children : forall acc m,
  m ∈ children ->
  val m = (fold_left (update_best val) children acc).1 ->
  m ∈ (fold_left (update_best val) children acc).2.
Proof.
  induction children as [|c children IH]; intros acc m Hm Heq.
  - by apply elem_of_nil in Hm.
  - cbn [fold_left] in *.
    destruct (decide (m ∈ children)) as [Hin|Hnin]; [by apply IH|].
    apply elem_of_cons in Hm as [->|Hm]; [|contradiction].
    pose proof (fold_best_ge children (update_best val acc c)) as [H1 _].
    pose proof (update_best_ge acc c) as [_ H2].
    rewrite <- Heq in H1.
    assert ((update_best val acc c).1 = val c) as Hsame by (apply value_inj; lia).
    apply fold_best_keeps; [|congruence].
    revert Hsame. unfold update_best, NegamaxResults.__gt__, NegamaxResults.__eq__.
    destruct (NegamaxResults.value acc.1 <? NegamaxResults.value (val c)) eqn:E1;
      [|destruct (NegamaxResults.value (val c) =? NegamaxResults.value acc.1) eqn:E2];
      cbn [fst snd]; intros Hs.
    + by apply list_elem_of_singleton.
    + apply elem_of_app. right. by apply list_elem_of_singleton.
    + apply Z.eqb_neq in E2. rewrite Hs in E2. congruence.
Qed.

Lemma fold_best_nonempty children : forall acc,
  (forall c, c ∈ children -> val c <> NegamaxResults.worst) ->
  (acc.2 <> [] \/ (acc.1 = NegamaxResults.worst /\ children <> [])) ->
  (fold_left (update_best val) children acc).2 <> [].
Proof.
  induction children as [|c children IH]; intros acc Hval Hacc.
  - destruct Hacc as [?|[_ ?]]; [assumption|congruence].
  - cbn [fold_left]. apply IH.
    + intros c' Hc'. apply Hval. by right.
    + left. unfold update_best.
      destruct (NegamaxResults.__gt__ (val c) acc.1) eqn:E1;
        [|destruct (NegamaxResults.__eq__ (val c) acc.1) eqn:E2]; cbn [fst snd].
      * discriminate.
      * intros H. by apply app_eq_nil in H as [_ ?].
      * destruct Hacc as [?|[Hw _]]; [assumption|].
        rewrite Hw in E1. rewrite gt_worst in E1; [discriminate|].
        apply Hval. by left.
Qed.
End Fold.

(* ------------------------------------------------------------------ *)
(** ** Turn flips *)

Lemma make_move_flips row column b b' :
  make_move row column b = (Return true, b') ->
  Players.other_player (_player b) = Return (_player b').
Proof.
  unfold make_move. unfold mbind at 1, M_bind at 1, reads at 1.
  destruct (cell row column b) as [v| |] eqn:Hc; try discriminate.
  destruct (Players.eqb v Players.unplayed) eqn:Hv; [|discriminate].
  assert (v = Players.unplayed) as -> by (destruct v; try discriminate; reflexivity).
  apply cell_Return in Hc as (k & r & j & Hk & Hr & Hj & Hu).
  unfold mbind, M_bind, reads, set_cell, set_moves, set_player, lift, ret, setitem.
  cbn [_board _moves _player]. rewrite Hk, Hr, Hj. cbn [_board _moves _player].
  destruct (Players.other_player (_player b)) as [q| |]; try discriminate.
  intros [= <-]. reflexivity.
Qed.

Lemma undo_move_flips b m b' :
  undo_move b = (Return (Some m), b') ->
  Players.other_player (_player b) = Return (_player b').
Proof.
  unfold undo_move. unfold mbind at 1, M_bind at 1, reads at 1.
  destruct (pop _) as [[[row column] rest]|]; [|cbv [ret]; discriminate].
  unfold mbind, M_bind, reads, set_cell, set_moves, set_player, lift, ret.
  cbn [_board _moves _player].
  destruct (index_of (_board b) row) as [k|]; [|discriminate].
  destruct (_board b !! k) as [r|]; [|discriminate].
  destruct (setitem r column Players.unplayed) as [r'| |]; try discriminate.
  cbn [_board _moves _player].
  destruct (Players.other_player (_player b)) as [q| |]; try discriminate.
  intros [= _ <-]. reflexivity.
Qed.

Lemma make_moves_turn ms : forall b0 b,
  make_moves ms b0 = Some b ->
  ms = [] \/
  (Nat.even (length ms) = true /\ _player b = _player b0) \/
  (Nat.even (length ms) = false /\
   Players.other_player (_player b0) = Return (_player b)).
Proof.
  induction ms as [|[row column] ms IH]; intros b0 b H; [by left|]. right.
  cbn [make_moves] in H.
  destruct (make_move row column b0) as [[[]| |] b1] eqn:Hmk; try discriminate.
  apply make_move_flips in Hmk.
  cbn [length]. rewrite Nat.even_succ, <- Nat.negb_even.
  destruct (IH _ _ H) as [->|[[He Hp]|[He Hp]]].
  - right. simpl in H. injection H as <-. split; [reflexivity|exact Hmk].
  - right. rewrite He, Hp. split; [reflexivity|exact Hmk].
  - left. rewrite He. split; [reflexivity|].
    apply other_player_Return in Hmk as (_ & _ & _ & Hback).
    congruence.
Qed.

(* ------------------------------------------------------------------ *)
(** ** check_for_win and get_winning_streak by lines *)

Lemma results_eqb_eq r s : Results.eqb r s = true -> r = s.
Proof. destruct r, s; simpl; congruence. Qed.

Lemma result_checked_all : forallb result_checked all_grids = true.
Proof. vm_compute. reflexivity. Qed.

Lemma check_for_win_by_lines b :
  grid_ok (_board b) -> check_for_win b = Return (result_by_lines b).
Proof.
  intros Hg. pose proof (for_all_grids _ result_checked_all _ Hg) as H.
  unfold result_checked in H.
  change (result_by_lines (of_grid (_board b))) with (result_by_lines b) in H.
  rewrite check_for_win_of_grid.
  destruct (check_for_win (of_grid (_board b))) as [[over w]| |]; try discriminate.
  apply andb_true_iff in H as [H1 H2].
  apply Bool.eqb_prop in H1. apply results_eqb_eq in H2.
  destruct (result_by_lines b). simpl in *. congruence.
Qed.

Lemma streak_checked_all : forallb streak_checked all_grids = true.
Proof. vm_compute. reflexivity. Qed.

Lemma first_line_checked_all : forallb first_line_checked all_grids = true.
Proof. vm_compute. reflexivity. Qed.

(* ------------------------------------------------------------------ *)
(** ** get_next_move on a well-formed board *)

Lemma getitem_in_range {A} (l : list A) i :
  0 <= i < Z.of_nat (length l) ->
  exists x, getitem l i = Return x /\ l !! Z.to_nat i = Some x.
Proof.
  intros Hi. unfold getitem, index_of.
  destruct (Z.leb_spec 0 i); [|lia]. destruct (Z.ltb_spec i (Z.of_nat (length l))); [|lia].
  simpl. destruct (lookup_lt_is_Some_2 l (Z.to_nat i)) as [x Hx]; [lia|].
  rewrite Hx. eauto.
Qed.

Lemma players_to_negamax p :
  p <> Players.unplayed ->
  exists player, NegamaxPlayers.of_value (Players.value p) = Return player.
Proof. destruct p; try congruence; intros _; eexists; reflexivity. Qed.

Lemma get_next_move_run fuel randrange p b :
  wf b -> p <> Players.unplayed -> (9 <= fuel)%nat ->
  exists player ms,
    NegamaxPlayers.of_value (Players.value p) = Return player /\
    get_possible_moves b = Return ms /\
    length ms = count_unplayed (_board b) /\
    (forall m, m ∈ ms -> cell m.1 m.2 b = Return Players.unplayed /\
                         0 <= m.1 < 3 /\ 0 <= m.2 < 3) /\
    Negamax.get_next_move fuel randrange p b =
      (let best_moves := best_moves_of fuel player b ms in
       let len := Z.of_nat (length best_moves) in
       if negb (len =? 0) then getitem best_moves (randrange len)
       else getitem best_moves 0, b).
Proof.
  intros Hwf Hp Hf.
  destruct (players_to_negamax p Hp) as [player Hplayer].
  destruct (possible_moves_ok b (proj1 Hwf)) as (ms & Hms & Hlen & Hall).
  pose proof (count_le_9 _ (proj1 Hwf)) as H9.
  exists player, ms. repeat (split; [assumption|]).
  unfold Negamax.get_next_move.
  rewrite (bind_lift _ _ _ _ Hplayer).
  rewrite (bind_reads _ _ _ _ Hms).
  erewrite bind_Return; cycle 1.
  { apply next_move_loop_fold; [assumption|lia|].
    apply Forall_forall. intros m Hm. apply (Hall m Hm). }
  unfold best_moves_of.
  destruct (fold_left _ ms _) as [bv bms]. cbn [snd].
  destruct (negb (Z.of_nat (length bms) =? 0)); reflexivity.
Qed.

Lemma best_moves_nonempty fuel player b ms :
  wf b -> (9 <= fuel)%nat ->
  (forall m, m ∈ ms -> cell m.1 m.2 b = Return Players.unplayed) ->
  ms <> [] -> best_moves_of fuel player b ms <> [].
Proof.
  intros Hwf Hf Hall Hne. unfold best_moves_of.
  pose proof (count_le_9 _ (proj1 Hwf)) as H9.
  apply fold_best_nonempty.
  - intros c Hc. apply move_value_not_worst; [assumption|lia|by apply Hall].
  - right. split; [reflexivity|assumption].
Qed.

Lemma best_moves_subset fuel player b ms m :
  m ∈ best_moves_of fuel player b ms -> m ∈ ms.
Proof.
  intros Hm. apply fold_best_subset in Hm as [Hm|Hm]; [|exact Hm].
  by apply elem_of_nil in Hm.
Qed.

(** On a board with a legal move [get_next_move] returns one of the best
    moves and leaves the board as it was. *)
Lemma get_next_move_returns fuel randrange p b :
  wf b -> p <> Players.unplayed -> (9 <= fuel)%nat -> randrange_ok randrange ->
  (0 < count_unplayed (_board b))%nat ->
  exists player ms m,
    NegamaxPlayers.of_value (Players.value p) = Return player /\
    get_possible_moves b = Return ms /\
    (forall m, m ∈ ms -> cell m.1 m.2 b = Return Players.unplayed /\
                         0 <= m.1 < 3 /\ 0 <= m.2 < 3) /\
    Negamax.get_next_move fuel randrange p b = (Return m, b) /\
    m ∈ best_moves_of fuel player b ms.
Proof.
  intros Hwf Hp Hf Hrr Hpos.
  destruct (get_next_move_run fuel randrange p b Hwf Hp Hf)
    as (player & ms & Hplayer & Hms & Hlen & Hall & Hrun).
  assert (ms <> []) as Hne by (destruct ms; [simpl in Hlen; lia|discriminate]).
  pose proof (best_moves_nonempty fuel player b ms Hwf Hf
                (fun m Hm => proj1 (Hall m Hm)) Hne) as Hbest.
  cbv zeta in Hrun.
  set (bms := best_moves_of fuel player b ms) in *.
  assert (0 < Z.of_nat (length bms)) as Hl by (destruct bms; [congruence|simpl; lia]).
  destruct (Z.eqb_spec (Z.of_nat (length bms)) 0) as [?|_]; [lia|]. cbn [negb] in Hrun.
  destruct (getitem_in_range bms (randrange (Z.of_nat (length bms))) (Hrr _ Hl))
    as (m & Hget & Hlook).
  rewrite Hget in Hrun.
  exists player, ms, m. repeat (split; [assumption|]).
  apply list_elem_of_lookup. eauto.
Qed.

(* ------------------------------------------------------------------ *)
(** ** The example boards are reached by play *)

Lemma fork_board_reached : make_moves fork_moves Board.__init__ = Some fork_board.
Proof. reflexivity. Qed.

Lemma corner_board_reached : make_moves corner_moves Board.__init__ = Some corner_board.
Proof. reflexivity. Qed.

Lemma tie_board_reached : make_moves tie_moves Board.__init__ = Some tie_board.
Proof. reflexivity. Qed.

Lemma init_wf : wf Board.__init__.
Proof. split; [split; [reflexivity|repeat constructor]|discriminate]. Defined.

Lemma fork_board_wf : wf fork_board.
Proof. split; [split; [reflexivity|repeat constructor]|discriminate]. Defined.

Lemma tie_board_wf : wf tie_board.
Proof. split; [split; [reflexivity|repeat constructor]|discriminate]. Defined.

Lemma last_index_ok : randrange_ok (fun n => n - 1).
Proof. intros n Hn. lia. Defined.

Lemma first_index_ok : randrange_ok (fun _ => 0).
Proof. intros n Hn. lia. Defined.

(* ------------------------------------------------------------------ *)
(** ** The properties of the specification *)

(** C1 (as the code has it): on a board for which [get_possible_moves] returns
    the empty list, [get_next_move] does not return a "no move" result: the
    loop leaves [best_moves] empty, and the subscript [best_moves[0]] of the
    last line raises [IndexError].  The board itself is not touched. *)
Theorem get_next_move_without_moves fuel randrange p b :
  p <> Players.unplayed ->
  get_possible_moves b = Return [] ->
  Negamax.get_next_move fuel randrange p b = (Raise IndexError, b).
Proof.
  intros Hp Hms. destruct (players_to_negamax p Hp) as [player Hplayer].
  unfold Negamax.get_next_move.
  rewrite (bind_lift _ _ _ _ Hplayer), (bind_reads _ _ _ _ Hms).
  reflexivity.
Qed.

Lemma get_next_move_without_moves_witness :
  get_possible_moves tie_board = Return [] /\
  Negamax.get_next_move 9 (fun _ => 0) Players.player_two tie_board
    = (Raise IndexError, tie_board).
Proof.
  split; [reflexivity|].
  apply (get_next_move_without_moves 9 (fun _ => 0) Players.player_two tie_board);
    [discriminate|reflexivity].
Defined.

(** C2 (as stated) fails: on [fork_board] X can win at once with (0,2), yet
    with the tie-break that takes the last of the best moves
    [get_next_move] returns (2,2), after which the game is not over. *)
Lemma best_move_need_not_win_at_once :
  make_moves fork_moves Board.__init__ = Some fork_board /\
  wins_now Players.player_one (0, 2) fork_board /\
  randrange_ok (fun n => n - 1) /\
  Negamax.get_next_move 9 (fun n => n - 1) Players.player_one fork_board
    = (Return (2, 2), fork_board) /\
  ~ wins_now Players.player_one (2, 2) fork_board.
Proof.
  split; [reflexivity|]. split; [eexists; split; reflexivity|].
  split; [exact last_index_ok|]. split; [vm_compute; reflexivity|].
  intros (b' & Hmk & Hw). vm_compute in Hmk. injection Hmk as <-.
  vm_compute in Hw. discriminate.
Qed.

Lemma value_le_1 v : NegamaxResults.value v <= 1.
Proof. destruct v; simpl; lia. Qed.

Lemma winning_move_value fuel player p b m :
  p <> Players.unplayed ->
  NegamaxPlayers.of_value (Players.value p) = Return player ->
  (1 <= fuel)%nat -> wins_now p m b ->
  move_value fuel player b m = NegamaxResults.player.
Proof.
  intros Hp Hplayer Hf (b' & Hmk & Hw).
  unfold move_value. rewrite Hmk.
  destruct fuel as [|fuel]; [lia|]. cbn [Negamax._negamax].
  rewrite (bind_reads _ _ _ _ Hw). cbn iota.
  destruct p; try congruence; injection Hplayer as <-; reflexivity.
Qed.

(** The best moves when some move has the top value [player]. *)
Lemma best_moves_with_win fuel player b ms m0 :
  m0 ∈ ms -> move_value fuel player b m0 = NegamaxResults.player ->
  m0 ∈ best_moves_of fuel player b ms /\
  forall m, m ∈ best_moves_of fuel player b ms ->
            move_value fuel player b m = NegamaxResults.player.
Proof.
  intros Hin Hval. unfold best_moves_of.
  set (val := move_value fuel player b) in *.
  set (acc := (NegamaxResults.worst, @nil move)).
  assert ((fold_left (update_best val) ms acc).1 = NegamaxResults.player) as Hbest.
  { apply value_inj.
    pose proof (fold_best_ge val ms acc) as [_ H]. specialize (H _ Hin).
    pose proof (value_le_1 (fold_left (update_best val) ms acc).1).
    rewrite Hval in H. simpl in *. lia. }
  split.
  - apply fold_best_contains; [exact Hin|congruence].
  - intros m Hm. rewrite <- Hbest. apply fold_best_valued; [|exact Hm].
    intros m' Hm'. by apply elem_of_nil in Hm'.
Qed.

(** C3: on a board that is not over, [get_next_move] returns a move, and the
    grid, the turn indicator and the length of the move stack are then what
    they were before the call. *)
Theorem get_next_move_restores_board fuel randrange p b :
  wf b -> p <> Players.unplayed -> (9 <= fuel)%nat -> randrange_ok randrange ->
  check_for_win b = Return (false, Results.no_win) ->
  exists m b',
    Negamax.get_next_move fuel randrange p b = (Return m, b') /\
    _board b' = _board b /\
    _player b' = _player b /\
    length (_moves b') = length (_moves b).
Proof.
  intros Hwf Hp Hf Hrr Hnot.
  assert (0 < count_unplayed (_board b))%nat as Hpos.
  { destruct (check_for_win_ok b (proj1 Hwf)) as [(w & v & Hw & _)|[_ H]];
      [congruence|exact H]. }
  destruct (get_next_move_returns fuel randrange p b Hwf Hp Hf Hrr Hpos)
    as (player & ms & m & _ & _ & _ & Hrun & _).
  exists m, b. auto.
Qed.

Lemma get_next_move_restores_board_witness :
  wf Board.__init__ /\
  check_for_win Board.__init__ = Return (false, Results.no_win) /\
  exists m b',
    Negamax.get_next_move 9 (fun _ => 0) Players.player_one Board.__init__
      = (Return m, b') /\
    _board b' = _board Board.__init__ /\
    _player b' = _player Board.__init__ /\
    length (_moves b') = length (_moves Board.__init__).
Proof.
  split; [exact init_wf|]. split; [reflexivity|].
  apply (get_next_move_restores_board 9 (fun _ => 0) Players.player_one Board.__init__
           init_wf);
    [discriminate|apply le_n|exact first_index_ok|reflexivity].
Defined.

Lemma first_complete_exists b s :
  existsb (sums_to s b) scan_order = true -> s = 3 \/ s = -3 ->
  exists l, first_complete scan_order b = Some l.
Proof.
  intros H Hs. unfold first_complete.
  destruct (find (complete b) scan_order) as [l|] eqn:E; [eauto|].
  apply existsb_exists in H as (l & Hl & Hsum).
  pose proof (find_none _ _ E l Hl) as Hn. unfold complete in Hn.
  destruct Hs as [-> | ->]; rewrite Hsum in Hn; simpl in Hn;
    [discriminate|by rewrite orb_true_r in Hn].
Qed.

Lemma check_for_win_by_first_line b :
  grid_ok (_board b) ->
  check_for_win b = Return (result_by_first_line spec_scan_order b) /\
  check_for_win b = Return (result_by_first_line scan_order b).
Proof.
  intros Hg. pose proof (for_all_grids _ first_line_checked_all _ Hg) as H.
  unfold first_line_checked in H.
  change (result_by_first_line spec_scan_order (of_grid (_board b)))
    with (result_by_first_line spec_scan_order b) in H.
  change (result_by_first_line scan_order (of_grid (_board b)))
    with (result_by_first_line scan_order b) in H.
  rewrite check_for_win_of_grid.
  destruct (check_for_win (of_grid (_board b))) as [[over w]| |]; try discriminate.
  apply andb_true_iff in H as [H H4]. apply andb_true_iff in H as [H H3].
  apply andb_true_iff in H as [H1 H2].
  apply Bool.eqb_prop in H1, H3. apply results_eqb_eq in H2, H4.
  destruct (result_by_first_line spec_scan_order b),
           (result_by_first_line scan_order b).
  simpl in *. split; congruence.
Qed.

(** C4: [check_for_win] examines the three rows, the three columns and the
    two diagonals, and the first complete line found decides: a line that
    sums to +3 gives PlayerOneWin, one that sums to -3 gives PlayerTwoWin;
    the order of the specification and the order of the code give the same
    result.  So it reports PlayerOneWin when some line sums to +3 (and none
    to -3), PlayerTwoWin when some line sums to -3 (and none to +3), Tie when
    no line is a win and all nine cells are occupied, and no result (not
    over) otherwise. *)
Theorem check_for_win_cases b :
  grid_ok (_board b) ->
  let one := existsb (sums_to 3 b) scan_order in
  let two := existsb (sums_to (-3) b) scan_order in
  check_for_win b = Return (result_by_first_line spec_scan_order b) /\
  check_for_win b = Return (result_by_first_line scan_order b) /\
  (one = true -> two = false ->
   check_for_win b = Return (true, Results.player_one_win)) /\
  (one = false -> two = true ->
   check_for_win b = Return (true, Results.player_two_win)) /\
  (one = true -> two = true ->
   exists l, first_complete scan_order b = Some l /\
             check_for_win b = Return (true, owner b l)) /\
  (one = false -> two = false -> all_occupied b = true ->
   check_for_win b = Return (true, Results.tie)) /\
  (one = false -> two = false -> all_occupied b = false ->
   check_for_win b = Return (false, Results.no_win)).
Proof.
  intros Hg one two.
  split; [apply (check_for_win_by_first_line b Hg)|].
  split; [apply (check_for_win_by_first_line b Hg)|].
  rewrite (check_for_win_by_lines b Hg).
  unfold result_by_lines. fold one two.
  repeat split.
  - intros -> ->. reflexivity.
  - intros -> ->. reflexivity.
  - intros H1 H2. destruct (first_complete_exists b 3 H1) as [l Hl]; [by left|].
    exists l. split; [exact Hl|]. fold one in H1. rewrite H1, H2, Hl. reflexivity.
  - intros -> -> ->. reflexivity.
  - intros -> -> ->. reflexivity.
Qed.

Lemma check_for_win_cases_witness :
  grid_ok (_board corner_board) /\
  check_for_win corner_board = Return (true, Results.player_one_win) /\
  check_for_win tie_board = Return (true, Results.tie).
Proof.
  assert (grid_ok (_board corner_board)) as Hg
    by (split; [reflexivity|repeat constructor]).
  split; [exact Hg|]. split.
  - apply (proj1 (proj2 (proj2 (check_for_win_cases corner_board Hg)))); reflexivity.
  - apply (check_for_win_cases tie_board (proj1 tie_board_wf)); reflexivity.
Defined.

(** C5 (as stated) fails: on [corner_board], reached by nine successful moves,
    row 0 and column 0 are both complete; the first winning line in the
    order row-then-column is row 0, but [get_winning_streak] returns the
    cells of column 0. *)
Lemma streak_is_column_before_row :
  make_moves corner_moves Board.__init__ = Some corner_board /\
  first_complete spec_scan_order corner_board = Some (row_line 0) /\
  get_winning_streak corner_board = Return [(0, 0); (1, 0); (2, 0)] /\
  get_winning_streak corner_board <> Return (cells_of (row_line 0)).
Proof. repeat split; try reflexivity. discriminate. Qed.

(** C5 (amended): [check_for_win] and [get_winning_streak] test the lines in
    the same order, the columns and rows before the two diagonals and, for
    each index 0..2, the column before the row.  The first complete line in
    that order decides the result of [check_for_win] and is the line whose
    three cells [get_winning_streak] returns; without a complete line
    [get_winning_streak] returns the empty list. *)
Theorem winning_streak_is_first_line b :
  grid_ok (_board b) ->
  match first_complete scan_order b with
  | Some l =>
      get_winning_streak b = Return (cells_of l) /\
      check_for_win b = Return (true, owner b l)
  | None =>
      get_winning_streak b = Return [] /\
      (check_for_win b = Return (true, Results.tie) \/
       check_for_win b = Return (false, Results.no_win))
  end.
Proof.
  intros Hg. pose proof (for_all_grids _ streak_checked_all _ Hg) as H.
  unfold streak_checked in H. cbv zeta in H.
  change (first_complete scan_order (of_grid (_board b)))
    with (first_complete scan_order b) in H.
  rewrite get_winning_streak_of_grid, check_for_win_of_grid.
  destruct (first_complete scan_order b) as [l|];
    destruct (get_winning_streak (of_grid (_board b))) as [ms| |]; try discriminate;
    destruct (check_for_win (of_grid (_board b))) as [[over w]| |]; try discriminate.
  - apply andb_true_iff in H as [H Hw]. apply andb_true_iff in H as [Hms Hover].
    apply bool_decide_eq_true in Hms. apply results_eqb_eq in Hw.
    change (owner (of_grid (_board b)) l) with (owner b l) in Hw.
    subst. split; reflexivity.
  - apply andb_true_iff in H as [Hms Hw].
    apply bool_decide_eq_true in Hms. apply results_eqb_eq in Hw.
    subst. split; [reflexivity|]. destruct over; [by left|by right].
Qed.

Lemma winning_streak_is_first_line_witness :
  grid_ok (_board corner_board) /\
  get_winning_streak corner_board = Return (cells_of (column_line 0)) /\
  check_for_win corner_board = Return (true, Results.player_one_win).
Proof.
  assert (grid_ok (_board corner_board)) as Hg
    by (split; [reflexivity|repeat constructor]).
  split; [exact Hg|].
  exact (winning_streak_is_first_line corner_board Hg).
Defined.

(** C6: for a cell in range, [make_move] on an occupied cell returns failure
    and leaves the board exactly as it was; on an unplayed cell it returns
    success, having set that cell to the player to move, pushed the move and
    flipped the turn: the new turn [q] is a player and is not the player who
    has moved.  There is no third outcome. *)
Theorem make_move_all_or_nothing b row column v :
  turn_ok b -> cell row column b = Return v ->
  (v <> Players.unplayed -> make_move row column b = (Return false, b)) /\
  (v = Players.unplayed ->
   exists k r j q,
     index_of (_board b) row = Some k /\ _board b !! k = Some r /\
     index_of r column = Some j /\
     Players.other_player (_player b) = Return q /\
     q <> Players.unplayed /\ q <> _player b /\
     make_move row column b =
       (Return true,
        {| _player := q;
           _moves := _moves b ++ [(row, column)];
           _board := <[k := <[j := _player b]> r]> (_board b) |})).
Proof.
  intros Ht Hc. split.
  - intros Hv. by eapply make_move_taken.
  - intros ->. apply cell_Return in Hc as (k & r & j & Hk & Hr & Hj & Hu).
    destruct (other_player_ok _ Ht) as [q Hq].
    pose proof (other_player_Return _ _ Hq) as (_ & Hq1 & Hq2 & _).
    exists k, r, j, q. repeat (split; [assumption|]).
    by apply make_move_unplayed.
Qed.

Lemma make_move_all_or_nothing_witness :
  turn_ok fork_board /\
  make_move 0 0 fork_board = (Return false, fork_board) /\
  exists b', make_move 0 2 fork_board = (Return true, b') /\
             _player b' = Players.player_two.
Proof.
  split; [apply fork_board_wf|].
  pose proof (make_move_all_or_nothing fork_board 0 0 Players.player_one
                (proj2 fork_board_wf) eq_refl) as [Hocc _].
  pose proof (make_move_all_or_nothing fork_board 0 2 Players.unplayed
                (proj2 fork_board_wf) eq_refl) as [_ Hfree].
  split; [apply Hocc; discriminate|].
  destruct (Hfree eq_refl) as (k & r & j & q & _ & _ & _ & _ & Hq1 & Hq2 & Hmk).
  eexists. split; [exact Hmk|]. cbn [_player].
  destruct q; [exfalso; by apply Hq2|reflexivity|exfalso; by apply Hq1].
Defined.

(** C7: after a successful [make_move] on an unplayed cell in range,
    [undo_move] returns that move and gives back the board as it was: the
    same grid, the same turn, the same move stack. *)
Theorem undo_inverts_make b row column :
  turn_ok b -> cell row column b = Return Players.unplayed ->
  exists b',
    make_move row column b = (Return true, b') /\
    undo_move b' = (Return (Some (row, column)), b).
Proof.
  intros Ht Hc.
  destruct (make_then_undo b row column Ht Hc) as (b' & Hmk & Hun & _).
  exists b'. auto.
Qed.

Lemma undo_inverts_make_witness :
  turn_ok fork_board /\
  exists b',
    make_move 1 1 fork_board = (Return true, b') /\
    undo_move b' = (Return (Some (1, 1)), fork_board).
Proof.
  split; [apply fork_board_wf|].
  apply (undo_inverts_make fork_board 1 1 (proj2 fork_board_wf)). reflexivity.
Defined.

(** C8: after [n] successful [make_move] calls from the empty board the player
    to move is player one when [n] is even and player two when [n] is odd;
    and every successful [make_move] and every successful [undo_move] flips
    the turn indicator. *)
Theorem turn_alternates :
  (forall n ms b,
     length ms = n -> make_moves ms Board.__init__ = Some b ->
     _player b = if Nat.even n then Players.player_one else Players.player_two) /\
  (forall row column b b',
     make_move row column b = (Return true, b') ->
     Players.other_player (_player b) = Return (_player b')) /\
  (forall m b b',
     undo_move b = (Return (Some m), b') ->
     Players.other_player (_player b) = Return (_player b')).
Proof.
  split; [|split].
  - intros n ms b <- H.
    destruct (make_moves_turn ms _ _ H) as [->|[[He Hp]|[He Hp]]].
    + simpl in H. injection H as <-. reflexivity.
    + rewrite He. exact Hp.
    + rewrite He. change (Return Players.player_two = Return (_player b)) in Hp.
      congruence.
  - intros row column b b'. apply make_move_flips.
  - intros m b b'. apply undo_move_flips.
Qed.

Lemma turn_alternates_witness :
  make_moves fork_moves Board.__init__ = Some fork_board /\
  _player fork_board = Players.player_one.
Proof.
  split; [reflexivity|].
  exact (proj1 turn_alternates 4%nat fork_moves fork_board eq_refl eq_refl).
Defined.

Lemma getitem_outcome {A} (l : list A) i :
  (exists x, getitem l i = Return x) \/ getitem l i = Raise IndexError.
Proof.
  unfold getitem. destruct (index_of l i) as [k|]; [|by right].
  destruct (l !! k); [left; eauto|by right].
Qed.

(** C9: in a call of [get_next_move] the negation is never applied to
    [NegamaxResults.worst].  The embedding ends a run with
    [NotImplementedNeg] at the first such negation, in [get_next_move] or in
    [_negamax]; no run on a well-formed board ends so. *)
Theorem worst_is_never_negated fuel randrange p b :
  wf b -> (9 <= fuel)%nat ->
  (Negamax.get_next_move fuel randrange p b).1 <> Raise NotImplementedNeg.
Proof.
  intros Hwf Hf.
  assert (p = Players.unplayed \/ p <> Players.unplayed) as [->|Hp]
    by (destruct p; auto; right; discriminate); [discriminate|].
  destruct (get_next_move_run fuel randrange p b Hwf Hp Hf)
    as (player & ms & _ & _ & _ & _ & Hrun).
  rewrite Hrun. cbv zeta. cbn [fst].
  match goal with
  | |- (if ?c then getitem ?l ?i else getitem ?l ?j) <> _ =>
      destruct c;
      [destruct (getitem_outcome l i) as [[x ->]| ->]
      |destruct (getitem_outcome l j) as [[x ->]| ->]]; discriminate
  end.
Qed.

Lemma worst_is_never_negated_witness :
  wf Board.__init__ /\
  (Negamax.get_next_move 9 (fun _ => 0) Players.player_one Board.__init__).1
    <> Raise NotImplementedNeg.
Proof.
  split; [exact init_wf|].
  apply (worst_is_never_negated 9 (fun _ => 0) Players.player_one Board.__init__ init_wf).
  apply le_n.
Defined.

(** C10: on a board with an unplayed cell, whatever the tie-break,
    [get_next_move] returns a move that is an element of
    [get_possible_moves] of that board: a coordinate in range whose cell is
    unplayed. *)
Theorem get_next_move_is_legal fuel randrange p b :
  wf b -> p <> Players.unplayed -> (9 <= fuel)%nat -> randrange_ok randrange ->
  (0 < count_unplayed (_board b))%nat ->
  exists m ms,
    Negamax.get_next_move fuel randrange p b = (Return m, b) /\
    get_possible_moves b = Return ms /\ m ∈ ms /\
    cell m.1 m.2 b = Return Players.unplayed /\
    0 <= m.1 < 3 /\ 0 <= m.2 < 3.
Proof.
  intros Hwf Hp Hf Hrr Hpos.
  destruct (get_next_move_returns fuel randrange p b Hwf Hp Hf Hrr Hpos)
    as (player & ms & m & _ & Hms & Hall & Hrun & Hm).
  apply best_moves_subset in Hm.
  exists m, ms. split; [assumption|]. split; [assumption|]. split; [assumption|].
  by apply Hall.
Qed.

Lemma get_next_move_is_legal_witness :
  wf fork_board /\
  exists m ms,
    Negamax.get_next_move 9 (fun n => n - 1) Players.player_one fork_board
      = (Return m, fork_board) /\
    get_possible_moves fork_board = Return ms /\ m ∈ ms /\
    cell m.1 m.2 fork_board = Return Players.unplayed /\
    0 <= m.1 < 3 /\ 0 <= m.2 < 3.
Proof.
  split; [exact fork_board_wf|].
  apply (get_next_move_is_legal 9 (fun n => n - 1) Players.player_one fork_board
           fork_board_wf);
    [discriminate|apply le_n|exact last_index_ok|vm_compute; lia].
Defined.

(* ------------------------------------------------------------------ *)
(** ** The board and its move stack *)

Lemma cell_outcome row column b :
  (exists v, cell row column b = Return v) \/ cell row column b = Raise IndexError.
Proof.
  unfold cell. destruct (getitem_outcome (_board b) row) as [[r ->]| ->]; [|by right].
  simpl. destruct (getitem_outcome r column) as [[v ->]| ->]; [left; eauto|by right].
Qed.

Lemma make_move_raises row column b e :
  cell row column b = Raise e -> make_move row column b = (Raise e, b).
Proof.
  intros Hc. unfold make_move. unfold mbind at 1, M_bind at 1, reads at 1.
  rewrite Hc. reflexivity.
Qed.

Lemma make_move_true row column b b' :
  make_move row column b = (Return true, b') ->
  turn_ok b /\ cell row column b = Return Players.unplayed.
Proof.
  intros H. split.
  - apply make_move_flips in H. apply other_player_Return in H. apply H.
  - destruct (cell_outcome row column b) as [[v Hv]|He].
    + destruct v; try reflexivity || exact Hv;
        rewrite (make_move_taken _ _ _ _ Hv) in H; discriminate.
    + rewrite (make_move_raises _ _ _ _ He) in H. discriminate.
Qed.

Lemma make_move_true_undo row column b b' :
  make_move row column b = (Return true, b') ->
  undo_move b' = (Return (Some (row, column)), b) /\
  _moves b' = _moves b ++ [(row, column)] /\
  (grid_ok (_board b) -> grid_ok (_board b')) /\
  (S (count_unplayed (_board b')) = count_unplayed (_board b)).
Proof.
  intros H. destruct (make_move_true _ _ _ _ H) as [Ht Hc].
  pose proof Hc as Hc'.
  apply cell_Return in Hc' as (k & r & j & Hk & Hr & Hj & Hv).
  destruct (other_player_ok _ Ht) as [q Hq].
  rewrite (make_move_unplayed _ _ _ _ _ _ _ Hk Hr Hj Hv Hq) in H.
  injection H as <-. cbn [_moves _board].
  split; [|split; [reflexivity|split]].
  - destruct b as [p ms g]. cbn [_player _moves _board] in *.
    eapply undo_after_make; eassumption.
  - by apply grid_ok_insert.
  - unfold count_unplayed.
    pose proof (sum_list_with_insert unplayed_in_row (_board b) k r
                  (<[j := _player b]> r) Hr) as H1.
    pose proof (sum_list_with_insert
      (fun v => if Players.eqb v Players.unplayed then 1%nat else 0%nat)
      r j Players.unplayed (_player b) Hv) as H2.
    fold (unplayed_in_row (<[j := _player b]> r)) in H2.
    fold (unplayed_in_row r) in H2.
    unfold turn_ok in Ht. destruct (_player b); try congruence; simpl in H2; lia.
Qed.

Lemma make_moves_app ms1 : forall ms2 b,
  make_moves (ms1 ++ ms2) b =
    match make_moves ms1 b with
    | Some b1 => make_moves ms2 b1
    | None => None
    end.
Proof.
  induction ms1 as [|[row column] ms1 IH]; intros ms2 b; [reflexivity|].
  cbn [app make_moves].
  destruct (make_move row column b) as [[[]| |] b1]; try reflexivity. apply IH.
Qed.

Lemma make_moves_facts ms : forall b b',
  make_moves ms b = Some b' ->
  _moves b' = _moves b ++ ms /\
  (grid_ok (_board b) -> grid_ok (_board b')) /\
  (length ms + count_unplayed (_board b') = count_unplayed (_board b))%nat.
Proof.
  induction ms as [|[row column] ms IH]; intros b b' H.
  - injection H as <-. rewrite app_nil_r. auto.
  - cbn [make_moves] in H.
    destruct (make_move row column b) as [[[]| |] b1] eqn:Hmk; try discriminate.
    apply make_move_true_undo in Hmk as (_ & Hst & Hg & Hc).
    destruct (IH _ _ H) as (Hst' & Hg' & Hc').
    rewrite Hst', Hst, <- app_assoc. cbn [length]. split; [reflexivity|].
    split; [auto|lia].
Qed.

Lemma make_moves_snoc ms row column b b' :
  make_moves (ms ++ [(row, column)]) b = Some b' ->
  exists b1, make_moves ms b = Some b1 /\
             make_move row column b1 = (Return true, b').
Proof.
  rewrite make_moves_app. destruct (make_moves ms b) as [b1|]; [|discriminate].
  cbn [make_moves].
  destruct (make_move row column b1) as [[[]| |] b2] eqn:Hmk; try discriminate.
  intros [= <-]. eauto.
Qed.

Lemma replayed_turn_ok b : replayed b -> turn_ok b.
Proof.
  intros H. destruct (make_moves_turn _ _ _ H) as [E|[[_ E]|[_ E]]].
  - unfold replayed in H. rewrite E in H. injection H as <-. discriminate.
  - unfold turn_ok. rewrite E. discriminate.
  - apply other_player_Return in E. apply E.
Qed.

Lemma replayed_perform c b : replayed b -> replayed (perform c b).
Proof.
  intros Hb. destruct c as [row column| |]; cbn [perform].
  - destruct (cell_outcome row column b) as [[v Hv]|He].
    + destruct (make_move row column b) as [[[]| |] b'] eqn:Hmk.
      * pose proof (make_move_true_undo _ _ _ _ Hmk) as (_ & Hst & _).
        cbn [snd]. unfold replayed. rewrite Hst, make_moves_app, Hb.
        cbn [make_moves]. rewrite Hmk. reflexivity.
      * assert (v <> Players.unplayed) as Hne.
        { intros ->. destruct (make_then_undo b row column (replayed_turn_ok b Hb) Hv)
            as (b1 & Hmk' & _). congruence. }
        rewrite (make_move_taken _ _ _ _ Hv Hne) in Hmk. injection Hmk as <-. exact Hb.
      * cbn [snd].
        assert (v = Players.unplayed \/ v <> Players.unplayed) as [->|Hne]
          by (destruct v; auto; right; discriminate).
        -- destruct (make_then_undo b row column (replayed_turn_ok b Hb) Hv)
             as (b1 & Hmk' & _). congruence.
        -- rewrite (make_move_taken _ _ _ _ Hv Hne) in Hmk. discriminate.
      * cbn [snd].
        assert (v = Players.unplayed \/ v <> Players.unplayed) as [->|Hne]
          by (destruct v; auto; right; discriminate).
        -- destruct (make_then_undo b row column (replayed_turn_ok b Hb) Hv)
             as (b1 & Hmk' & _). congruence.
        -- rewrite (make_move_taken _ _ _ _ Hv Hne) in Hmk. discriminate.
    + rewrite (make_move_raises _ _ _ _ He). exact Hb.
  - destruct (_moves b) as [|m0 ms0] eqn:Hms using rev_ind.
    + unfold undo_move, mbind, M_bind, reads. rewrite Hms. exact Hb.
    + clear IHms0. destruct m0 as [row column].
      unfold replayed in Hb. rewrite Hms in Hb.
      apply make_moves_snoc in Hb as (b1 & Hb1 & Hmk).
      pose proof (make_move_true_undo _ _ _ _ Hmk) as (Hun & Hst & _).
      rewrite Hun. cbn [snd]. unfold replayed.
      apply make_moves_facts in Hb1 as Hf. destruct Hf as (Hst1 & _).
      cbn [_moves Board.__init__ app] in Hst1. rewrite Hst1. exact Hb1.
  - reflexivity.
Qed.

Lemma perform_all_replayed cs : forall b, replayed b -> replayed (perform_all cs b).
Proof.
  induction cs as [|c cs IH]; intros b Hb; [exact Hb|].
  cbn [perform_all fold_left]. apply IH. by apply replayed_perform.
Qed.

Lemma init_grid_ok : grid_ok (_board Board.__init__).
Proof. split; [reflexivity|repeat constructor]. Qed.

(** X1: whatever calls of [make_move], [undo_move] and [reset] have been made
    on a new board, with whatever arguments and results, the board is the one
    obtained by replaying its move stack on an empty board.  So the grid has
    three rows of three cells, the occupied cells are as many as the moves on
    the stack, and player one is to move exactly when that number is even. *)
Theorem board_is_replay_of_stack cs :
  let b := perform_all cs Board.__init__ in
  make_moves (_moves b) Board.__init__ = Some b /\
  wf b /\
  (length (_moves b) + count_unplayed (_board b) = 9)%nat /\
  _player b = if Nat.even (length (_moves b))
              then Players.player_one else Players.player_two.
Proof.
  intros b.
  assert (replayed b) as Hb by (apply perform_all_replayed; reflexivity).
  split; [exact Hb|].
  destruct (make_moves_facts _ _ _ Hb) as (_ & Hg & Hc).
  split; [split; [apply Hg, init_grid_ok|by apply replayed_turn_ok]|].
  split; [exact Hc|].
  destruct (make_moves_turn _ _ _ Hb) as [E|[[He Hp]|[He Hp]]].
  - rewrite E. unfold replayed in Hb. rewrite E in Hb. injection Hb as <-. reflexivity.
  - rewrite He. exact Hp.
  - rewrite He. change (Return Players.player_two = Return (_player b)) in Hp.
    congruence.
Qed.

(** X2: a run of successful moves is taken back by as many calls of
    [undo_move], which return the moves last to first; every further call
    returns the failure value and changes nothing. *)
Theorem undo_moves_back ms : forall b0 b k,
  _moves b0 = [] -> make_moves ms b0 = Some b ->
  undo_moves (length ms + k) b =
    (map Some (rev ms) ++ replicate k None, b0).
Proof.
  induction ms as [|[row column] ms IH] using rev_ind; intros b0 b k H0 H.
  - injection H as <-. cbn [length rev map app Nat.add].
    induction k as [|k IHk]; [reflexivity|].
    cbn [undo_moves replicate].
    unfold undo_move, mbind, M_bind, reads. rewrite H0. cbn [pop rev ret].
    unfold ret. rewrite IHk. reflexivity.
  - apply make_moves_snoc in H as (b1 & Hb1 & Hmk).
    apply make_move_true_undo in Hmk as (Hun & _).
    rewrite length_app, rev_app_distr. cbn [length rev app map].
    replace (length ms + 1 + k)%nat with (S (length ms + k)) by lia.
    cbn [undo_moves]. rewrite Hun. rewrite (IH b0 b1 k H0 Hb1). reflexivity.
Qed.

Lemma undo_moves_back_witness :
  undo_moves (4 + 1) fork_board =
    (map Some (rev fork_moves) ++ replicate 1 None, Board.__init__).
Proof.
  exact (undo_moves_back fork_moves Board.__init__ fork_board 1 eq_refl eq_refl).
Defined.

(* ------------------------------------------------------------------ *)
(** ** What the reading methods return *)

Lemma possible_moves_checked_all : forallb possible_moves_checked all_grids = true.
Proof. vm_compute. reflexivity. Qed.

Lemma board_full_checked_all : forallb board_full_checked all_grids = true.
Proof. vm_compute. reflexivity. Qed.

Lemma streak_cells_checked_all : forallb streak_cells_checked all_grids = true.
Proof. vm_compute. reflexivity. Qed.

Lemma mover_checked_all : forallb mover_checked all_grids = true.
Proof. vm_compute. reflexivity. Qed.

Lemma players_eqb_eq p q : Players.eqb p q = true -> p = q.
Proof. destruct p, q; simpl; congruence. Qed.

(** X3: on a 3x3 grid [get_possible_moves] returns exactly the cells that
    hold [unplayed], each once, in row-major order. *)
Theorem possible_moves_row_major b :
  grid_ok (_board b) ->
  get_possible_moves b = Return (List.filter (is_unplayed_cell b) all_coords).
Proof.
  intros Hg. pose proof (for_all_grids _ possible_moves_checked_all _ Hg) as H.
  unfold possible_moves_checked in H. rewrite get_possible_moves_of_grid.
  destruct (get_possible_moves (of_grid (_board b))) as [ms| |]; try discriminate.
  apply bool_decide_eq_true in H. rewrite H. reflexivity.
Qed.

Lemma possible_moves_row_major_witness :
  grid_ok (_board fork_board) /\
  get_possible_moves fork_board = Return [(0, 2); (1, 1); (1, 2); (2, 0); (2, 2)].
Proof.
  assert (grid_ok (_board fork_board)) as Hg
    by (split; [reflexivity|repeat constructor]).
  split; [exact Hg|]. exact (possible_moves_row_major fork_board Hg).
Defined.

(** X4: on a 3x3 grid [_board_full] returns [True] exactly when
    [get_possible_moves] returns the empty list, and on such a board
    [check_for_win] reports the game over. *)
Theorem board_full_no_moves b :
  grid_ok (_board b) ->
  exists full,
    _board_full b = Return full /\
    (full = true <-> get_possible_moves b = Return []) /\
    (full = true -> exists w, check_for_win b = Return (true, w)).
Proof.
  intros Hg. pose proof (for_all_grids _ board_full_checked_all _ Hg) as H.
  unfold board_full_checked in H.
  change (_board_full (of_grid (_board b))) with (_board_full b) in H.
  rewrite get_possible_moves_of_grid, check_for_win_of_grid.
  destruct (_board_full b) as [full| |]; try discriminate.
  destruct (get_possible_moves (of_grid (_board b))) as [ms| |]; try discriminate.
  destruct (check_for_win (of_grid (_board b))) as [[over w]| |]; try discriminate.
  apply andb_true_iff in H as [H1 H2]. apply Bool.eqb_prop in H1.
  exists full. split; [reflexivity|]. split.
  - rewrite H1. rewrite bool_decide_eq_true. split; congruence.
  - intros ->. simpl in H2. subst over. eauto.
Qed.

Lemma board_full_no_moves_witness :
  grid_ok (_board tie_board) /\
  exists full,
    _board_full tie_board = Return full /\
    (full = true <-> get_possible_moves tie_board = Return []) /\
    (full = true -> exists w, check_for_win tie_board = Return (true, w)).
Proof.
  assert (grid_ok (_board tie_board)) as Hg
    by (split; [reflexivity|repeat constructor]).
  split; [exact Hg|]. exact (board_full_no_moves tie_board Hg).
Defined.

(** X5: on a 3x3 grid [get_winning_streak] returns either the empty list,
    and then [check_for_win] reports a tie or a game that is not over, or
    three cells that all hold the mark of one player, and then
    [check_for_win] reports that player as the winner. *)
Theorem winning_streak_cells b :
  grid_ok (_board b) ->
  (get_winning_streak b = Return [] /\
   (check_for_win b = Return (true, Results.tie) \/
    check_for_win b = Return (false, Results.no_win))) \/
  (exists p c0 c1 c2,
     p <> Players.unplayed /\
     get_winning_streak b = Return [c0; c1; c2] /\
     cell c0.1 c0.2 b = Return p /\ cell c1.1 c1.2 b = Return p /\
     cell c2.1 c2.2 b = Return p /\
     check_for_win b = Return (true, win_of p)).
Proof.
  intros Hg. pose proof (for_all_grids _ streak_cells_checked_all _ Hg) as H.
  unfold streak_cells_checked in H. cbv zeta in H.
  rewrite get_winning_streak_of_grid, check_for_win_of_grid.
  destruct (get_winning_streak (of_grid (_board b))) as [ms| |]; try discriminate.
  destruct (check_for_win (of_grid (_board b))) as [[over w]| |];
    [|destruct ms as [|? [|? [|? [|]]]]; discriminate..].
  destruct ms as [|c0 [|c1 [|c2 [|]]]]; try discriminate.
  - left. split; [reflexivity|]. apply results_eqb_eq in H. subst w.
    destruct over; [by left|by right].
  - right.
    destruct (cell c0.1 c0.2 (of_grid (_board b))) as [p0| |] eqn:E0; try discriminate.
    destruct (cell c1.1 c1.2 (of_grid (_board b))) as [p1| |] eqn:E1; try discriminate.
    destruct (cell c2.1 c2.2 (of_grid (_board b))) as [p2| |] eqn:E2; try discriminate.
    apply andb_true_iff in H as [H Hw]. apply andb_true_iff in H as [H Hover].
    apply andb_true_iff in H as [H H02]. apply andb_true_iff in H as [Hne H01].
    apply players_eqb_eq in H01, H02. apply results_eqb_eq in Hw.
    subst p1 p2 w over.
    exists p0, c0, c1, c2.
    split; [intros ->; discriminate|]. split; [reflexivity|].
    split; [exact E0|]. split; [exact E1|]. split; [exact E2|reflexivity].
Qed.

Lemma winning_streak_cells_witness :
  grid_ok (_board corner_board) /\
  get_winning_streak corner_board = Return [(0, 0); (1, 0); (2, 0)] /\
  cell 1 0 corner_board = Return Players.player_one.
Proof.
  assert (grid_ok (_board corner_board)) as Hg
    by (split; [reflexivity|repeat constructor]).
  split; [exact Hg|].
  destruct (winning_streak_cells corner_board Hg)
    as [[He _]|(p & c0 & c1 & c2 & _ & Hs & _)]; [discriminate He|].
  split; reflexivity.
Defined.

(** X6: when a board is not over and a move is made, [check_for_win] on the
    new board reports no result, a tie, or a win of the player who has just
    moved, never a win of the other player. *)
Theorem only_the_mover_wins b row column b' :
  grid_ok (_board b) ->
  check_for_win b = Return (false, Results.no_win) ->
  make_move row column b = (Return true, b') ->
  check_for_win b' = Return (false, Results.no_win) \/
  check_for_win b' = Return (true, Results.tie) \/
  check_for_win b' = Return (true, win_of (_player b)).
Proof.
  intros Hg Hnot Hmk.
  destruct (make_move_true _ _ _ _ Hmk) as [Ht Hc].
  apply cell_Return in Hc as (k & r & j & Hk & Hr & Hj & Hv).
  destruct (other_player_ok _ Ht) as [q Hq].
  rewrite (make_move_unplayed _ _ _ _ _ _ _ Hk Hr Hj Hv Hq) in Hmk.
  injection Hmk as <-.
  pose proof (for_all_grids _ mover_checked_all _ Hg) as H.
  unfold mover_checked in H. rewrite <- check_for_win_of_grid, Hnot in H.
  assert (k < 3)%nat as Hk3.
  { apply index_of_lt in Hk. destruct Hg as [Hl _]. lia. }
  assert (j < 3)%nat as Hj3.
  { apply index_of_lt in Hj. destruct Hg as [_ Hall].
    rewrite Forall_forall in Hall.
    rewrite (Hall r) in Hj; [lia|]. apply list_elem_of_lookup. eauto. }
  rewrite forallb_forall in H.
  assert (In (_player b) [Players.player_one; Players.player_two]) as Hp.
  { unfold turn_ok in Ht. destruct (_player b); simpl; tauto. }
  specialize (H _ Hp). rewrite forallb_forall in H.
  assert (In k [0; 1; 2]%nat) as Hk' by (simpl; lia).
  specialize (H _ Hk'). rewrite forallb_forall in H.
  assert (In j [0; 1; 2]%nat) as Hj' by (simpl; lia).
  specialize (H _ Hj'). rewrite Hr, Hv in H.
  set (c := check_for_win (of_grid (<[k:=<[j:=_player b]> r]> (_board b)))) in *.
  change (c = Return (false, Results.no_win) \/
          c = Return (true, Results.tie) \/
          c = Return (true, win_of (_player b))).
  destruct c as [[over w]| |]; try discriminate.
  apply orb_true_iff in H as [H|H]; apply andb_true_iff in H as [H1 H2].
  - apply results_eqb_eq in H1. destruct over; [discriminate|]. left. congruence.
  - subst over. apply orb_true_iff in H2 as [H2|H2]; apply results_eqb_eq in H2;
      subst w; auto.
Qed.

Lemma only_the_mover_wins_witness :
  grid_ok (_board fork_board) /\
  check_for_win (make_move 0 2 fork_board).2
    = Return (true, win_of (_player fork_board)).
Proof.
  assert (grid_ok (_board fork_board)) as Hg
    by (split; [reflexivity|repeat constructor]).
  split; [exact Hg|].
  destruct (only_the_mover_wins fork_board 0 2 (make_move 0 2 fork_board).2
              Hg eq_refl eq_refl) as [H|[H|H]];
    [discriminate H|discriminate H|exact H].
Defined.

(* ------------------------------------------------------------------ *)
(** ** Subscripts and the enumerations *)

Lemma index_of_in_range {A} (l : list A) i :
  - Z.of_nat (length l) <= i < Z.of_nat (length l) ->
  index_of l i = Some (Z.to_nat (i mod Z.of_nat (length l))).
Proof.
  intros Hi. unfold index_of.
  destruct (Z.leb_spec 0 i) as [H0|H0].
  - destruct (Z.ltb_spec i (Z.of_nat (length l))); [|lia]. simpl.
    rewrite Z.mod_small by lia. reflexivity.
  - simpl. destruct (Z.leb_spec (- Z.of_nat (length l)) i); [|lia].
    destruct (Z.ltb_spec i 0); [|lia]. simpl.
    replace (i mod Z.of_nat (length l)) with (Z.of_nat (length l) + i); [reflexivity|].
    apply (Z.mod_unique_pos _ _ (-1)); lia.
Qed.

Lemma index_of_out_of_range {A} (l : list A) i :
  ~ (- Z.of_nat (length l) <= i < Z.of_nat (length l)) -> index_of l i = None.
Proof.
  intros Hi. unfold index_of.
  destruct (Z.leb_spec 0 i); destruct (Z.ltb_spec i (Z.of_nat (length l)));
    destruct (Z.leb_spec (- Z.of_nat (length l)) i); destruct (Z.ltb_spec i 0);
    simpl; try reflexivity; lia.
Qed.

Lemma getitem_mod {A} (l : list A) i :
  - Z.of_nat (length l) <= i < Z.of_nat (length l) ->
  exists x, getitem l i = Return x /\
            getitem l (i mod Z.of_nat (length l)) = Return x.
Proof.
  intros Hi.
  assert (0 < Z.of_nat (length l)) as Hpos by lia.
  pose proof (Z.mod_pos_bound i _ Hpos) as Hm.
  unfold getitem. rewrite (index_of_in_range l i Hi).
  rewrite (index_of_in_range l (i mod Z.of_nat (length l))) by lia.
  rewrite Z.mod_mod by lia.
  destruct (lookup_lt_is_Some_2 l (Z.to_nat (i mod Z.of_nat (length l)))) as [x Hx];
    [lia|].
  rewrite Hx. eauto.
Qed.

Lemma getitem_out_of_range {A} (l : list A) i :
  ~ (- Z.of_nat (length l) <= i < Z.of_nat (length l)) ->
  getitem l i = Raise IndexError.
Proof. intros Hi. unfold getitem. by rewrite index_of_out_of_range. Qed.

Lemma grid_ok_row g i r : grid_ok g -> getitem g i = Return r -> length r = 3%nat.
Proof.
  intros [_ Hall] H. apply getitem_Return in H as (k & _ & Hk).
  rewrite Forall_forall in Hall. apply Hall. apply list_elem_of_lookup. eauto.
Qed.

(** X7: on a 3x3 grid [make_move] accepts the subscripts -3..2 for the row
    and for the column; a negative subscript names the cell counted from the
    end, so [(row, column)] and [(row mod 3, column mod 3)] are the same
    cell.  With any other subscript [make_move] raises [IndexError] and the
    board stays as it was. *)
Theorem make_move_subscripts b row column :
  grid_ok (_board b) -> turn_ok b ->
  (-3 <= row < 3 /\ -3 <= column < 3 ->
   cell row column b = cell (row mod 3) (column mod 3) b /\
   exists ok b', make_move row column b = (Return ok, b')) /\
  (~ (-3 <= row < 3 /\ -3 <= column < 3) ->
   make_move row column b = (Raise IndexError, b)).
Proof.
  intros Hg Ht. pose proof Hg as [Hl _]. split.
  - intros [Hr Hc].
    destruct (getitem_mod (_board b) row) as (r & Hr1 & Hr2); [rewrite Hl; lia|].
    rewrite Hl in Hr2. change (Z.of_nat 3) with 3 in Hr2.
    pose proof (grid_ok_row _ _ _ Hg Hr1) as Hlr.
    destruct (getitem_mod r column) as (v & Hv1 & Hv2); [rewrite Hlr; lia|].
    rewrite Hlr in Hv2. change (Z.of_nat 3) with 3 in Hv2.
    assert (cell row column b = Return v) as Hcell
      by (unfold cell; rewrite Hr1; exact Hv1).
    split.
    + rewrite Hcell. unfold cell. rewrite Hr2. simpl. by rewrite Hv2.
    + assert (v = Players.unplayed \/ v <> Players.unplayed) as [->|Hne]
        by (destruct v; auto; right; discriminate).
      * destruct (make_then_undo b row column Ht Hcell) as (b' & Hmk & _). eauto.
      * rewrite (make_move_taken _ _ _ _ Hcell Hne). eauto.
  - intros Hout. apply make_move_raises. unfold cell.
    assert (~ -3 <= row < 3 \/ (-3 <= row < 3 /\ ~ -3 <= column < 3)) as [Hr|[Hr Hc]]
      by lia.
    + rewrite getitem_out_of_range; [reflexivity|rewrite Hl; lia].
    + destruct (getitem_mod (_board b) row) as (r & Hr1 & _); [rewrite Hl; lia|].
      rewrite Hr1. simpl. pose proof (grid_ok_row _ _ _ Hg Hr1) as Hlr.
      apply getitem_out_of_range. rewrite Hlr. lia.
Qed.

Lemma make_move_subscripts_witness :
  grid_ok (_board Board.__init__) /\ turn_ok Board.__init__ /\
  cell (-1) (-3) Board.__init__ = cell 2 0 Board.__init__ /\
  make_move 3 0 Board.__init__ = (Raise IndexError, Board.__init__).
Proof.
  split; [apply init_wf|]. split; [apply init_wf|].
  destruct (make_move_subscripts Board.__init__ (-1) (-3)
              (proj1 init_wf) (proj2 init_wf)) as [Hin _].
  destruct (make_move_subscripts Board.__init__ 3 0
              (proj1 init_wf) (proj2 init_wf)) as [_ Hout].
  split; [apply Hin; lia|apply Hout; lia].
Defined.

(** X8: [Players.other_player] exchanges the two players: applied twice it
    gives the player back, and it negates the value; for [unplayed] it gives
    [NotImplemented]. *)
Theorem other_player_swaps p :
  (p <> Players.unplayed ->
   exists q, Players.other_player p = Return q /\
             q <> Players.unplayed /\ q <> p /\
             Players.value q = - Players.value p /\
             Players.other_player q = Return p) /\
  (p = Players.unplayed -> Players.other_player p = Raise NotImplementedOther).
Proof.
  split.
  - destruct p; try congruence; intros _; eexists; cbv; repeat split; congruence.
  - intros ->. reflexivity.
Qed.

Lemma other_player_swaps_witness :
  Players.other_player Players.player_two = Return Players.player_one.
Proof.
  destruct (proj1 (other_player_swaps Players.player_two))
    as (q & Hq & _ & _ & Hv & _); [discriminate|].
  destruct q; try discriminate Hv. exact Hq.
Defined.

(** X9: the negation of [NegamaxResults] exchanges [player] and
    [other_player] and fixes [tie]; applied twice it gives the value back,
    and it reverses the order.  [worst] is below the three other values and
    its negation gives [NotImplemented]. *)
Theorem negamax_results_negation v w :
  (v <> NegamaxResults.worst ->
   exists v', NegamaxResults.__neg__ v = Return v' /\
              NegamaxResults.value v' = - NegamaxResults.value v /\
              NegamaxResults.__neg__ v' = Return v /\
              NegamaxResults.__gt__ v NegamaxResults.worst = true) /\
  (v <> NegamaxResults.worst -> w <> NegamaxResults.worst ->
   forall v' w', NegamaxResults.__neg__ v = Return v' ->
                 NegamaxResults.__neg__ w = Return w' ->
                 NegamaxResults.__lt__ v w = NegamaxResults.__gt__ v' w') /\
  NegamaxResults.__neg__ NegamaxResults.worst = Raise NotImplementedNeg.
Proof.
  split; [|split].
  - destruct v; try congruence; intros _; eexists; cbv; repeat split; congruence.
  - destruct v, w; try congruence; intros _ _ v' w'; cbv; intros [= <-] [= <-];
      reflexivity.
  - reflexivity.
Qed.

Lemma negamax_results_negation_witness :
  NegamaxResults.__neg__ NegamaxResults.player = Return NegamaxResults.other_player.
Proof.
  destruct (proj1 (negamax_results_negation NegamaxResults.player NegamaxResults.tie))
    as (v' & Hv & Hval & _); [discriminate|].
  destruct v'; try discriminate Hval. exact Hv.
Defined.

(* ------------------------------------------------------------------ *)
(** ** Pruning and best moves *)

Lemma value_range v :
  v <> NegamaxResults.worst -> -1 <= NegamaxResults.value v <= 1.
Proof. destruct v; try congruence; simpl; lia. Qed.

Lemma value_ge_worst v : -100 <= NegamaxResults.value v.
Proof. destruct v; simpl; lia. Qed.

Lemma value_worst v : NegamaxResults.value v = -100 -> v = NegamaxResults.worst.
Proof. destruct v; simpl; try lia. reflexivity. Qed.

Lemma value_improved cv best :
  NegamaxResults.value (if NegamaxResults.__gt__ cv best then cv else best)
  = Z.max (NegamaxResults.value best) (NegamaxResults.value cv).
Proof.
  unfold NegamaxResults.__gt__.
  destruct (Z.ltb_spec (NegamaxResults.value best) (NegamaxResults.value cv)); lia.
Qed.

Lemma value_max a v :
  NegamaxResults.value (NegamaxResults.max a v)
  = Z.max (NegamaxResults.value a) (NegamaxResults.value v).
Proof. unfold NegamaxResults.max. apply value_improved. Qed.

Lemma negamax_loop_sound rec pv b player children :
  rec_sound (count_unplayed (_board b)) rec pv -> wf b ->
  Forall (fun m => cell m.1 m.2 b = Return Players.unplayed) children ->
  forall alpha beta best_value best_move,
    alpha <> NegamaxResults.worst -> beta <> NegamaxResults.worst ->
    NegamaxResults.value alpha < NegamaxResults.value beta ->
    NegamaxResults.value best_value <= NegamaxResults.value alpha ->
    let top := foldr (fun child best =>
                        Z.max (- pv (NegamaxPlayers.other_player player) (after child b))
                              best) (-100) children in
    exists v mv,
      Negamax.negamax_loop rec player children alpha beta best_value best_move b
        = (Return (v, mv), b) /\
      NegamaxResults.value best_value <= NegamaxResults.value v /\
      (NegamaxResults.value v <= NegamaxResults.value alpha ->
       top <= NegamaxResults.value v) /\
      (NegamaxResults.value alpha < NegamaxResults.value v < NegamaxResults.value beta ->
       NegamaxResults.value v = top) /\
      (NegamaxResults.value beta <= NegamaxResults.value v ->
       NegamaxResults.value v <= top) /\
      (mv = best_move \/ exists m, mv = Some m /\ m ∈ children) /\
      (best_value = NegamaxResults.worst -> children <> [] ->
       exists m, mv = Some m /\ m ∈ children).
Proof.
  intros Hrec [Hg Ht]. induction children as [|[row column] children IH];
    intros Hall alpha beta best_value best_move Ha Hb Hab Hbest top.
  - exists best_value, best_move. split; [reflexivity|].
    pose proof (value_ge_worst best_value). subst top. cbn [foldr].
    repeat split; try lia; auto. congruence.
  - apply Forall_cons in Hall as [Hc Hall]. simpl in Hc.
    destruct (make_then_undo b row column Ht Hc)
      as (b1 & Hmk & Hun & Hq & _ & _ & Hg1 & Hcnt).
    destruct (neg_ok _ Hb) as (nbeta & Hnb & Hnb' & Hnbv).
    destruct (neg_ok _ Ha) as (nalpha & Hna & Hna' & Hnav).
    assert (wf b1) as Hwf1.
    { split; [auto|]. apply other_player_Return in Hq. unfold turn_ok. tauto. }
    destruct (Hrec b1 (NegamaxPlayers.other_player player) nbeta nalpha
                Hwf1 Hcnt Hnb' Hna') as (v1 & mv1 & Hr & Hv1 & (W1 & W2 & W3) & Hpv);
      [lia|].
    destruct (neg_ok _ Hv1) as (cv & Hcv & Hcv' & Hcvv).
    assert (after (row, column) b = b1) as Hafter
      by (unfold after; cbn [fst snd]; by rewrite Hmk).
    subst top. cbn [foldr]. rewrite Hafter.
    set (t := - pv (NegamaxPlayers.other_player player) b1) in *.
    match goal with
    | |- context [foldr ?f (-100) children] =>
        set (top' := foldr f (-100) children) in *
    end.
    cbn [Negamax.negamax_loop].
    rewrite (bind_Return _ _ _ _ _ Hmk).
    rewrite (bind_lift _ _ _ _ Hnb), (bind_lift _ _ _ _ Hna).
    rewrite (bind_Return _ _ _ _ _ Hr). cbn [fst].
    rewrite (bind_lift _ _ _ _ Hcv).
    rewrite (bind_Return _ _ _ _ _ Hun).
    pose proof (value_improved cv best_value) as Hbv'.
    pose proof (value_max alpha cv) as Hal'.
    pose proof (value_range _ Hcv') as Hcvr.
    set (bv' := if NegamaxResults.__gt__ cv best_value then cv else best_value) in *.
    set (bm' := if NegamaxResults.__gt__ cv best_value then Some (row, column)
                else best_move).
    set (alpha' := NegamaxResults.max alpha cv) in *.
    assert (bm' = best_move \/ bm' = Some (row, column)) as Hbm'
      by (unfold bm'; destruct (NegamaxResults.__gt__ cv best_value); auto).
    assert (best_value = NegamaxResults.worst -> bm' = Some (row, column)) as Hfirst.
    { intros ->. unfold bm'. by rewrite gt_worst. }
    unfold NegamaxResults.__ge__.
    destruct (Z.leb_spec (NegamaxResults.value beta) (NegamaxResults.value alpha'))
      as [Hbreak|Hcont].
    + exists bv', bm'. split; [reflexivity|].
      split; [lia|]. split; [lia|]. split; [lia|]. split; [lia|]. split.
      * destruct Hbm' as [->| ->]; [by left|]. right. eexists. split; [reflexivity|].
        by left.
      * intros Hw _. exists (row, column). split; [auto|by left].
    + destruct (IH Hall alpha' beta bv' bm' (max_not_worst _ _ Hcv') Hb)
        as (v & mv & Hl & Hge & Ia & Ib & Ic & Im & _); [lia|lia|].
      exists v, mv. split; [exact Hl|].
      split; [lia|]. split; [lia|]. split; [lia|]. split; [lia|]. split.
      * destruct Im as [->|(m & -> & Hm)].
        -- destruct Hbm' as [->| ->]; [by left|]. right. eexists.
           split; [reflexivity|]. by left.
        -- right. exists m. split; [reflexivity|]. by right.
      * intros Hw _. destruct Im as [->|(m & -> & Hm)].
        -- exists (row, column). split; [auto|by left].
        -- exists m. split; [reflexivity|]. by right.
Qed.

Lemma foldr_max_range {A} (f : A -> Z) (l : list A) :
  l <> [] -> (forall x, x ∈ l -> -1 <= f x <= 1) ->
  -1 <= foldr (fun x best => Z.max (f x) best) (-100) l <= 1.
Proof.
  induction l as [|a l IH]; [congruence|]. intros _ H. cbn [foldr].
  assert (-1 <= f a <= 1) by (apply H; by left).
  destruct l as [|a' l'].
  - cbn [foldr]. lia.
  - assert (-1 <= foldr (fun x best => Z.max (f x) best) (-100) (a' :: l') <= 1).
    { apply IH; [discriminate|]. intros x Hx. apply H. by right. }
    lia.
Qed.

Lemma foldr_max_ext {A} (f g : A -> Z) (l : list A) :
  (forall x, x ∈ l -> f x = g x) ->
  foldr (fun x best => Z.max (f x) best) (-100) l
  = foldr (fun x best => Z.max (g x) best) (-100) l.
Proof.
  induction l as [|a l IH]; intros H; [reflexivity|]. cbn [foldr].
  rewrite (H a) by (by left). rewrite IH; [reflexivity|].
  intros x Hx. apply H. by right.
Qed.

Lemma foldr_max_ge {A} (f : A -> Z) (l : list A) x :
  x ∈ l -> f x <= foldr (fun x best => Z.max (f x) best) (-100) l.
Proof.
  induction l as [|a l IH]; intros Hx; [by apply elem_of_nil in Hx|].
  cbn [foldr]. apply elem_of_cons in Hx as [->|Hx]; [lia|].
  specialize (IH Hx). lia.
Qed.

Lemma after_unplayed b m :
  wf b -> cell m.1 m.2 b = Return Players.unplayed ->
  wf (after m b) /\
  (count_unplayed (_board (after m b)) < count_unplayed (_board b))%nat.
Proof.
  intros [Hg Ht] Hc.
  destruct (make_then_undo b _ _ Ht Hc) as (b1 & Hmk & _ & Hq & _ & _ & Hg1 & Hcnt).
  unfold after. rewrite Hmk. cbn [snd]. split; [|exact Hcnt].
  split; [auto|]. apply other_player_Return in Hq. unfold turn_ok. tauto.
Qed.

(** The search with a window against the search without. *)
Lemma negamax_sound fuel :
  rec_sound fuel (Negamax._negamax fuel) (plain_negamax fuel) /\
  forall b player alpha beta v mv,
    wf b -> (count_unplayed (_board b) < fuel)%nat ->
    Negamax._negamax fuel player alpha beta b = (Return (v, mv), b) ->
    alpha <> NegamaxResults.worst -> beta <> NegamaxResults.worst ->
    NegamaxResults.value alpha < NegamaxResults.value beta ->
    match check_for_win b with
    | Return (true, _) => mv = None
    | _ => exists m ms, mv = Some m /\ get_possible_moves b = Return ms /\ m ∈ ms
    end.
Proof.
  induction fuel as [|fuel [IH _]].
  { split; [intros b ? ? ? _ H; lia|intros b ? ? ? ? ? _ H; lia]. }
  assert (forall b player alpha beta,
    wf b -> (count_unplayed (_board b) < S fuel)%nat ->
    alpha <> NegamaxResults.worst -> beta <> NegamaxResults.worst ->
    NegamaxResults.value alpha < NegamaxResults.value beta ->
    exists v mv,
      Negamax._negamax (S fuel) player alpha beta b = (Return (v, mv), b) /\
      v <> NegamaxResults.worst /\
      within_window alpha beta v (plain_negamax (S fuel) player b) /\
      -1 <= plain_negamax (S fuel) player b <= 1 /\
      match check_for_win b with
      | Return (true, _) => mv = None
      | _ => exists m ms, mv = Some m /\ get_possible_moves b = Return ms /\ m ∈ ms
      end) as Hnode.
  { intros b player alpha beta Hwf Hcnt Ha Hb Hab.
    cbn [Negamax._negamax plain_negamax].
    destruct (check_for_win_ok b (proj1 Hwf)) as [(w & v & Hw & Hv & Hr)|[Hw Hpos]].
    - rewrite (bind_reads _ _ _ _ Hw), Hw. cbn iota. rewrite Hv.
      destruct (terminal_value w v player Hv Hr) as (r & Hof & Hne).
      rewrite (bind_lift _ _ _ v eq_refl).
      rewrite (bind_lift _ _ _ _ Hof).
      exists r, None. split; [reflexivity|]. split; [assumption|].
      assert (NegamaxResults.value r = v * NegamaxPlayers.value player) as Hval.
      { destruct w; simpl in Hv; try discriminate; injection Hv as <-; destruct player;
          cbv in Hof; injection Hof as <-; reflexivity. }
      pose proof (value_range _ Hne).
      split; [unfold within_window; lia|]. split; [lia|reflexivity].
    - rewrite (bind_reads _ _ _ _ Hw), Hw. cbn iota.
      destruct (possible_moves_ok b (proj1 Hwf)) as (ms & Hms & Hlen & Hall).
      rewrite (bind_reads _ _ _ _ Hms), Hms.
      assert (ms <> []) as Hne by (destruct ms; [simpl in Hlen; lia|discriminate]).
      destruct (negamax_loop_sound (Negamax._negamax fuel) (plain_negamax fuel)
                  b player ms) with
        (alpha := alpha) (beta := beta) (best_value := NegamaxResults.worst)
        (best_move := @None move)
        as (v & mv & Hl & Hge & Ia & Ib & Ic & _ & Hm); try assumption.
      + intros b' p' a' be' Hwf' Hc' Ha' Hb' Hab'. apply IH; try assumption. lia.
      + apply Forall_forall. intros m Hm. apply (Hall m Hm).
      + pose proof (value_ge_worst alpha). simpl. lia.
      + assert (-1 <= foldr (fun child best =>
                   Z.max (- plain_negamax fuel (NegamaxPlayers.other_player player)
                              (after child b)) best) (-100) ms <= 1) as Hrange.
        { apply (foldr_max_range
                   (fun child => - plain_negamax fuel (NegamaxPlayers.other_player player)
                                      (after child b))); [exact Hne|].
          intros m Hm'. destruct (Hall m Hm') as (Hc & _).
          destruct (after_unplayed b m Hwf Hc) as [Hwf' Hcnt'].
          destruct (IH (after m b) (NegamaxPlayers.other_player player)
                      NegamaxResults.other_player NegamaxResults.player Hwf')
            as (? & ? & _ & _ & _ & Hpv); try discriminate; [lia|simpl; lia|].
          lia. }
        exists v, mv. split; [exact Hl|].
        assert (v <> NegamaxResults.worst) as Hv.
        { intros ->. simpl in Ia, Ib, Ic, Hge.
          pose proof (value_range _ Ha). lia. }
        split; [exact Hv|]. split; [unfold within_window; auto|].
        split; [exact Hrange|].
        destruct (Hm eq_refl Hne) as (m & -> & Hin). eauto. }
  split.
  - intros b player alpha beta Hwf Hcnt Ha Hb Hab.
    destruct (Hnode b player alpha beta Hwf Hcnt Ha Hb Hab)
      as (v & mv & H1 & H2 & H3 & H4 & _). eauto 6.
  - intros b player alpha beta v mv Hwf Hcnt Hrun Ha Hb Hab.
    destruct (Hnode b player alpha beta Hwf Hcnt Ha Hb Hab)
      as (v' & mv' & H1 & _ & _ & _ & H5).
    rewrite Hrun in H1. injection H1 as -> ->. exact H5.
Qed.

(** More fuel than unplayed cells: the value does not depend on the fuel. *)
Lemma plain_negamax_fuel fuel : forall fuel' b player,
  wf b -> (count_unplayed (_board b) < fuel)%nat ->
  (count_unplayed (_board b) < fuel')%nat ->
  plain_negamax fuel player b = plain_negamax fuel' player b.
Proof.
  induction fuel as [|fuel IH]; intros fuel' b player Hwf H1 H2; [lia|].
  destruct fuel' as [|fuel']; [lia|]. cbn [plain_negamax].
  destruct (check_for_win b) as [[[] w]| |]; try reflexivity.
  destruct (possible_moves_ok b (proj1 Hwf)) as (ms & Hms & _ & Hall).
  rewrite Hms.
  apply (foldr_max_ext
           (fun child => - plain_negamax fuel (NegamaxPlayers.other_player player)
                              (after child b))
           (fun child => - plain_negamax fuel' (NegamaxPlayers.other_player player)
                              (after child b))).
  intros m Hm. destruct (Hall m Hm) as (Hc & _).
  destruct (after_unplayed b m Hwf Hc) as [Hwf' Hcnt'].
  f_equal. apply IH; [assumption|lia|lia].
Qed.

Lemma position_value_fuel fuel b player :
  wf b -> (count_unplayed (_board b) < fuel)%nat ->
  plain_negamax fuel player b = position_value player b.
Proof.
  intros Hwf Hf. unfold position_value. apply plain_negamax_fuel; [assumption..|].
  pose proof (count_le_9 _ (proj1 Hwf)). lia.
Qed.

Lemma plain_negamax_S fuel' player b :
  plain_negamax (S fuel') player b =
    match check_for_win b with
    | Return (true, winner) =>
        match Results.value winner with
        | Some v => v * NegamaxPlayers.value player
        | None => -100
        end
    | Return (false, _) =>
        match get_possible_moves b with
        | Return children =>
            foldr (fun child best =>
                     Z.max (- plain_negamax fuel'
                                (NegamaxPlayers.other_player player) (after child b))
                           best)
                  (-100) children
        | _ => -100
        end
    | _ => -100
    end.
Proof. reflexivity. Qed.

Lemma foldr_max_attained {A} (f : A -> Z) (l : list A) m :
  m ∈ l -> -100 <= f m -> (forall x, x ∈ l -> f x <= f m) ->
  foldr (fun x best => Z.max (f x) best) (-100) l = f m.
Proof.
  intros Hm Hlow Hmax.
  pose proof (foldr_max_ge f l m Hm) as Hge.
  assert (foldr (fun x best => Z.max (f x) best) (-100) l <= f m); [|lia].
  clear Hge Hm. induction l as [|a l IH]; cbn [foldr]; [lia|].
  assert (f a <= f m) by (apply Hmax; by left).
  assert (foldr (fun x best => Z.max (f x) best) (-100) l <= f m); [|lia].
  apply IH. intros x Hx. apply Hmax. by right.
Qed.

(** The value that [get_next_move] finds for a move is the exact value. *)
Lemma move_value_exact fuel player b m :
  wf b -> (9 <= fuel)%nat -> cell m.1 m.2 b = Return Players.unplayed ->
  NegamaxResults.value (move_value fuel player b m)
  = - position_value (NegamaxPlayers.other_player player) (after m b).
Proof.
  intros Hwf Hf Hc. pose proof (count_le_9 _ (proj1 Hwf)) as H9.
  destruct (after_unplayed b m Hwf Hc) as [Hwf1 Hcnt].
  destruct (proj1 (negamax_sound fuel) (after m b) (NegamaxPlayers.other_player player)
              NegamaxResults.other_player NegamaxResults.player Hwf1)
    as (v & mv & Hr & Hv & (W1 & W2 & W3) & Hpv); try discriminate; [lia|simpl; lia|].
  rewrite position_value_fuel in W1, W2, W3, Hpv by (assumption || lia).
  destruct (neg_ok _ Hv) as (cv & Hcv & _ & Hcvv).
  destruct (make_then_undo b _ _ (proj2 Hwf) Hc) as (b1 & Hmk & _).
  assert (after m b = b1) as Hafter by (unfold after; by rewrite Hmk).
  unfold move_value. rewrite Hmk. rewrite <- Hafter, Hr. cbn [fst].
  rewrite Hcv, Hcvv. pose proof (value_range _ Hv). change (NegamaxResults.value NegamaxResults.other_player) with (-1) in *.
  change (NegamaxResults.value NegamaxResults.player) with 1 in *. lia.
Qed.

Lemma best_moves_are_the_maxima fuel player b ms m :
  ms <> [] ->
  (forall c, c ∈ ms -> move_value fuel player b c <> NegamaxResults.worst) ->
  m ∈ best_moves_of fuel player b ms <->
  m ∈ ms /\
  forall m', m' ∈ ms ->
    NegamaxResults.value (move_value fuel player b m')
    <= NegamaxResults.value (move_value fuel player b m).
Proof.
  intros Hne Hval. unfold best_moves_of.
  set (val := move_value fuel player b) in *.
  set (acc := (NegamaxResults.worst, @nil move)).
  assert (forall x, x ∈ (fold_left (update_best val) ms acc).2 ->
                    val x = (fold_left (update_best val) ms acc).1) as Hvalued.
  { apply fold_best_valued. intros x Hx. by apply elem_of_nil in Hx. }
  pose proof (fold_best_ge val ms acc) as [_ Hge].
  split.
  - intros Hm. split.
    + apply fold_best_subset in Hm as [Hm|Hm]; [by apply elem_of_nil in Hm|exact Hm].
    + intros m' Hm'. rewrite (Hvalued m Hm). by apply Hge.
  - intros [Hm Hmax]. apply fold_best_contains; [exact Hm|].
    apply value_inj. apply Z.le_antisymm; [by apply Hge|].
    assert ((fold_left (update_best val) ms acc).2 <> []) as Hbms.
    { apply fold_best_nonempty; [exact Hval|]. right. split; [reflexivity|exact Hne]. }
    destruct (fold_left (update_best val) ms acc).2 as [|x bms] eqn:E; [congruence|].
    assert (x ∈ x :: bms) as Hx by (by left).
    rewrite <- (Hvalued x Hx). apply Hmax.
    pose proof (fold_best_subset val ms acc x) as Hsub. rewrite E in Hsub.
    destruct (Hsub Hx) as [H|H]; [by apply elem_of_nil in H|exact H].
Qed.

(** C2 (amended): when the player to move has a legal move that wins at once,
    every move that [get_next_move] can return is a legal move that forces a
    win: after it the position has the value -1 (a loss) for the opponent,
    who is then to move, under the exhaustive negamax recursion
    [position_value].  Each move that wins at once is returned under some
    tie-break; the returned move itself need not end the game. *)
Theorem winning_position_move fuel randrange p b ms m0 :
  wf b -> _player b = p -> (9 <= fuel)%nat -> randrange_ok randrange ->
  get_possible_moves b = Return ms -> m0 ∈ ms -> wins_now p m0 b ->
  exists player m,
    NegamaxPlayers.of_value (Players.value p) = Return player /\
    Negamax.get_next_move fuel randrange p b = (Return m, b) /\
    m ∈ ms /\
    position_value (NegamaxPlayers.other_player player) (after m b) = -1 /\
    exists randrange',
      randrange_ok randrange' /\
      Negamax.get_next_move fuel randrange' p b = (Return m0, b).
Proof.
  intros Hwf Hturn Hf Hrr Hms Hin Hwin.
  assert (p <> Players.unplayed) as Hp by (rewrite <- Hturn; apply Hwf).
  destruct (possible_moves_ok b (proj1 Hwf)) as (ms' & Hms' & Hlen & Hcells).
  assert (ms' = ms) as -> by congruence.
  assert (0 < count_unplayed (_board b))%nat as Hpos.
  { rewrite <- Hlen. destruct ms; [by apply elem_of_nil in Hin|simpl; lia]. }
  destruct (get_next_move_returns fuel randrange p b Hwf Hp Hf Hrr Hpos)
    as (player & ms' & m & Hplayer & Hms'' & _ & Hrun & Hm).
  assert (ms' = ms) as -> by congruence.
  assert (move_value fuel player b m0 = NegamaxResults.player) as Hval
    by (eapply winning_move_value; eauto; lia).
  destruct (best_moves_with_win fuel player b ms m0 Hin Hval) as [Hin0 Hall].
  pose proof (best_moves_subset _ _ _ _ _ Hm) as Hmin.
  exists player, m. split; [assumption|]. split; [assumption|].
  split; [exact Hmin|]. split.
  { pose proof (move_value_exact fuel player b m Hwf Hf (proj1 (Hcells m Hmin)))
      as Hexact.
    rewrite (Hall m Hm) in Hexact.
    change (NegamaxResults.value NegamaxResults.player) with 1 in Hexact. lia. }
  apply list_elem_of_lookup in Hin0 as [k Hk].
  pose proof (lookup_lt_Some _ _ _ Hk) as Hlt.
  exists (fun n => if Z.of_nat k <? n then Z.of_nat k else 0). split.
  - intros n Hn. destruct (Z.ltb_spec (Z.of_nat k) n); lia.
  - destruct (get_next_move_run fuel
                (fun n => if Z.of_nat k <? n then Z.of_nat k else 0) p b Hwf Hp Hf)
      as (player' & ms' & Hplayer' & Hms3 & _ & _ & Hrun').
    assert (ms' = ms) as -> by congruence.
    assert (player' = player) as -> by congruence.
    rewrite Hrun'. cbv zeta.
    set (bms := best_moves_of fuel player b ms) in *.
    destruct (Z.eqb_spec (Z.of_nat (length bms)) 0) as [?|_]; [lia|]. cbn [negb].
    destruct (Z.ltb_spec (Z.of_nat k) (Z.of_nat (length bms))); [|lia].
    destruct (getitem_in_range bms (Z.of_nat k)) as (x & Hget & Hlook); [lia|].
    rewrite Nat2Z.id in Hlook. rewrite Hget. congruence.
Qed.

Lemma winning_position_move_witness :
  wf fork_board /\ wins_now Players.player_one (0, 2) fork_board /\
  exists m,
    Negamax.get_next_move 9 (fun n => n - 1) Players.player_one fork_board
      = (Return m, fork_board) /\
    position_value NegamaxPlayers.opponent (after m fork_board) = -1.
Proof.
  split; [exact fork_board_wf|].
  assert (wins_now Players.player_one (0, 2) fork_board) as Hwin
    by (eexists; split; reflexivity).
  split; [exact Hwin|].
  destruct (winning_position_move 9 (fun n => n - 1) Players.player_one fork_board
              [(0, 2); (1, 1); (1, 2); (2, 0); (2, 2)] (0, 2)
              fork_board_wf eq_refl (le_n 9) last_index_ok eq_refl
              (list_elem_of_here _ _) Hwin)
    as (player & m & Hp & Hrun & _ & Hv & _).
  injection Hp as <-. exists m. split; [exact Hrun|exact Hv].
Defined.

(** X10: alpha-beta pruning does not change the result.  For every window
    [alpha < beta] of proper values, [_negamax] returns, with the board
    restored, a value [v] that is the value of the search without window
    when [v] lies inside the window, a bound from above for it when
    [v <= alpha] and a bound from below when [v >= beta]; with the window
    [(other_player, player)] used by [get_next_move] it is that value. *)
Theorem pruning_keeps_the_value fuel b player alpha beta :
  wf b -> (10 <= fuel)%nat ->
  alpha <> NegamaxResults.worst -> beta <> NegamaxResults.worst ->
  NegamaxResults.value alpha < NegamaxResults.value beta ->
  exists v mv,
    Negamax._negamax fuel player alpha beta b = (Return (v, mv), b) /\
    within_window alpha beta v (position_value player b) /\
    (alpha = NegamaxResults.other_player -> beta = NegamaxResults.player ->
     NegamaxResults.value v = position_value player b).
Proof.
  intros Hwf Hf Ha Hb Hab. pose proof (count_le_9 _ (proj1 Hwf)) as H9.
  destruct (proj1 (negamax_sound fuel) b player alpha beta Hwf)
    as (v & mv & Hr & Hv & HW & Hpv); try assumption; [lia|].
  rewrite position_value_fuel in HW, Hpv by (assumption || lia).
  exists v, mv. split; [exact Hr|]. split; [exact HW|].
  intros -> ->. destruct HW as (W1 & W2 & W3).
  pose proof (value_range _ Hv). change (NegamaxResults.value NegamaxResults.other_player) with (-1) in *.
  change (NegamaxResults.value NegamaxResults.player) with 1 in *. lia.
Qed.

Lemma pruning_keeps_the_value_witness :
  wf fork_board /\
  exists v mv,
    Negamax._negamax 10 NegamaxPlayers.player NegamaxResults.other_player
      NegamaxResults.player fork_board = (Return (v, mv), fork_board) /\
    NegamaxResults.value v = position_value NegamaxPlayers.player fork_board.
Proof.
  split; [exact fork_board_wf|].
  destruct (pruning_keeps_the_value 10 fork_board NegamaxPlayers.player
              NegamaxResults.other_player NegamaxResults.player fork_board_wf)
    as (v & mv & Hr & _ & Hv); [apply le_n|discriminate|discriminate|simpl; lia|].
  exists v, mv. split; [exact Hr|]. by apply Hv.
Defined.

(** X11: [_negamax] returns no move ([None]) at a position that is over, and
    at any other position one of the moves of [get_possible_moves]. *)
Theorem negamax_best_move fuel b player alpha beta :
  wf b -> (10 <= fuel)%nat ->
  alpha <> NegamaxResults.worst -> beta <> NegamaxResults.worst ->
  NegamaxResults.value alpha < NegamaxResults.value beta ->
  exists v mv,
    Negamax._negamax fuel player alpha beta b = (Return (v, mv), b) /\
    match check_for_win b with
    | Return (true, _) => mv = None
    | _ => exists m ms, mv = Some m /\ get_possible_moves b = Return ms /\ m ∈ ms
    end.
Proof.
  intros Hwf Hf Ha Hb Hab. pose proof (count_le_9 _ (proj1 Hwf)) as H9.
  destruct (proj1 (negamax_sound fuel) b player alpha beta Hwf)
    as (v & mv & Hr & _); try assumption; [lia|].
  exists v, mv. split; [exact Hr|].
  apply (proj2 (negamax_sound fuel) b player alpha beta v mv); try assumption. lia.
Qed.

Lemma negamax_best_move_witness :
  wf fork_board /\
  exists v m,
    Negamax._negamax 10 NegamaxPlayers.player NegamaxResults.other_player
      NegamaxResults.player fork_board = (Return (v, Some m), fork_board).
Proof.
  split; [exact fork_board_wf|].
  destruct (negamax_best_move 10 fork_board NegamaxPlayers.player
              NegamaxResults.other_player NegamaxResults.player fork_board_wf)
    as (v & mv & Hr & Hm); [apply le_n|discriminate|discriminate|simpl; lia|].
  destruct Hm as (m & ms & -> & _). exists v, m. exact Hr.
Defined.

(** X12: the move returned by [get_next_move] is a best move: among the legal
    moves it leaves the opponent the least value, and when the game is not
    over that value is the negated value of the position for the player. *)
Theorem get_next_move_is_optimal fuel randrange p b :
  wf b -> p <> Players.unplayed -> (9 <= fuel)%nat -> randrange_ok randrange ->
  (0 < count_unplayed (_board b))%nat ->
  exists player ms m,
    NegamaxPlayers.of_value (Players.value p) = Return player /\
    get_possible_moves b = Return ms /\
    Negamax.get_next_move fuel randrange p b = (Return m, b) /\
    m ∈ ms /\
    (forall m', m' ∈ ms ->
       position_value (NegamaxPlayers.other_player player) (after m b)
       <= position_value (NegamaxPlayers.other_player player) (after m' b)) /\
    (check_for_win b = Return (false, Results.no_win) ->
     position_value player b
     = - position_value (NegamaxPlayers.other_player player) (after m b)).
Proof.
  intros Hwf Hp Hf Hrr Hpos. pose proof (count_le_9 _ (proj1 Hwf)) as H9.
  destruct (get_next_move_returns fuel randrange p b Hwf Hp Hf Hrr Hpos)
    as (player & ms & m & Hplayer & Hms & Hall & Hrun & Hm).
  assert (ms <> []) as Hne by (intros ->; by apply elem_of_nil in Hm).
  assert (forall c, c ∈ ms -> move_value fuel player b c <> NegamaxResults.worst)
    as Hval.
  { intros c Hc. apply move_value_not_worst; [assumption|lia|by apply Hall]. }
  apply (best_moves_are_the_maxima fuel player b ms m Hne Hval) in Hm as [Hin Hmax].
  assert (forall m', m' ∈ ms ->
            position_value (NegamaxPlayers.other_player player) (after m b)
            <= position_value (NegamaxPlayers.other_player player) (after m' b))
    as Hleast.
  { intros m' Hm'. specialize (Hmax m' Hm').
    rewrite !move_value_exact in Hmax by (assumption || by apply Hall). lia. }
  exists player, ms, m. repeat (split; [assumption|]).
  intros Hnot. unfold position_value at 1. rewrite (plain_negamax_S 9).
  rewrite Hnot, Hms.
  rewrite (foldr_max_ext _
             (fun child => - position_value (NegamaxPlayers.other_player player)
                                (after child b))).
  - apply (foldr_max_attained
             (fun child => - position_value (NegamaxPlayers.other_player player)
                                (after child b))); [exact Hin| |].
    + rewrite <- (move_value_exact fuel) by (assumption || by apply Hall).
      apply value_ge_worst.
    + intros x Hx. specialize (Hleast x Hx). lia.
  - intros x Hx. destruct (Hall x Hx) as (Hc & _).
    destruct (after_unplayed b x Hwf Hc) as [Hwf' Hcnt'].
    rewrite (position_value_fuel 9); [reflexivity|assumption|lia].
Qed.

Lemma get_next_move_is_optimal_witness :
  wf fork_board /\
  exists m,
    Negamax.get_next_move 9 (fun _ => 0) Players.player_one fork_board
      = (Return m, fork_board) /\
    position_value NegamaxPlayers.player fork_board
    = - position_value NegamaxPlayers.opponent (after m fork_board).
Proof.
  split; [exact fork_board_wf|].
  destruct (get_next_move_is_optimal 9 (fun _ => 0) Players.player_one fork_board
              fork_board_wf)
    as (player & ms & m & Hp & _ & Hrun & _ & _ & Hv);
    [discriminate|apply le_n|exact first_index_ok|vm_compute; lia|].
  injection Hp as <-. exists m. split; [exact Hrun|]. by apply Hv.
Defined.

(** X13: every best move can be returned: a legal move that leaves the
    opponent the least value among the legal moves is returned by
    [get_next_move] under some tie-break. *)
Theorem every_best_move_is_possible fuel p b player ms m :
  wf b -> (9 <= fuel)%nat ->
  NegamaxPlayers.of_value (Players.value p) = Return player ->
  get_possible_moves b = Return ms -> m ∈ ms ->
  (forall m', m' ∈ ms ->
     position_value (NegamaxPlayers.other_player player) (after m b)
     <= position_value (NegamaxPlayers.other_player player) (after m' b)) ->
  exists randrange,
    randrange_ok randrange /\
    Negamax.get_next_move fuel randrange p b = (Return m, b).
Proof.
  intros Hwf Hf Hplayer Hms Hin Hleast.
  pose proof (count_le_9 _ (proj1 Hwf)) as H9.
  assert (p <> Players.unplayed) as Hp by (intros ->; discriminate).
  destruct (possible_moves_ok b (proj1 Hwf)) as (ms' & Hms' & _ & Hall).
  assert (ms' = ms) as -> by congruence.
  assert (ms <> []) as Hne by (intros ->; by apply elem_of_nil in Hin).
  assert (forall c, c ∈ ms -> move_value fuel player b c <> NegamaxResults.worst)
    as Hval.
  { intros c Hc. apply move_value_not_worst; [assumption|lia|by apply Hall]. }
  assert (m ∈ best_moves_of fuel player b ms) as Hbest.
  { apply (best_moves_are_the_maxima fuel player b ms m Hne Hval). split; [exact Hin|].
    intros m' Hm'. specialize (Hleast m' Hm').
    rewrite !move_value_exact by (assumption || by apply Hall). lia. }
  apply list_elem_of_lookup in Hbest as [k Hk].
  pose proof (lookup_lt_Some _ _ _ Hk) as Hlt.
  exists (fun n => if Z.of_nat k <? n then Z.of_nat k else 0). split.
  - intros n Hn. destruct (Z.ltb_spec (Z.of_nat k) n); lia.
  - destruct (get_next_move_run fuel
                (fun n => if Z.of_nat k <? n then Z.of_nat k else 0) p b Hwf Hp Hf)
      as (player' & ms' & Hplayer' & Hms3 & _ & _ & Hrun').
    assert (ms' = ms) as -> by congruence.
    assert (player' = player) as -> by congruence.
    rewrite Hrun'. cbv zeta.
    set (bms := best_moves_of fuel player b ms) in *.
    destruct (Z.eqb_spec (Z.of_nat (length bms)) 0) as [?|_]; [lia|]. cbn [negb].
    destruct (Z.ltb_spec (Z.of_nat k) (Z.of_nat (length bms))); [|lia].
    destruct (getitem_in_range bms (Z.of_nat k)) as (x & Hget & Hlook); [lia|].
    rewrite Nat2Z.id in Hlook. rewrite Hget. congruence.
Qed.

Lemma every_best_move_is_possible_witness :
  wf fork_board /\
  exists randrange,
    randrange_ok randrange /\
    Negamax.get_next_move 9 randrange Players.player_one fork_board
      = (Return (0, 2), fork_board).
Proof.
  split; [exact fork_board_wf|].
  apply (every_best_move_is_possible 9 Players.player_one fork_board
           NegamaxPlayers.player [(0, 2); (1, 1); (1, 2); (2, 0); (2, 2)] (0, 2)
           fork_board_wf (le_n 9) eq_refl eq_refl (list_elem_of_here _ _)).
  intros m' Hm'.
  repeat (apply elem_of_cons in Hm' as [->|Hm']);
    [vm_compute; discriminate..|by apply elem_of_nil in Hm'].
Defined.

(* ------------------------------------------------------------------ *)
(** ** Bidict *)

Section BidictFacts.
Context {K : Type} `{Countable K}.
Import Bidict.

Lemma delitem_pair (key v : K) (d : gmap K K) :
  paired d -> no_self_pair d -> d !! key = Some v ->
  __delitem__ key d = (Done, delete key (delete v d)) /\
  paired (delete key (delete v d)) /\ no_self_pair (delete key (delete v d)).
Proof.
  intros Hp Hn Hk. pose proof (Hp _ _ Hk) as Hv.
  assert (v <> key) as Hne by (intros ->; by apply (Hn key)).
  unfold __delitem__, dict_delitem. rewrite Hk, Hv.
  rewrite lookup_delete_ne by done. rewrite Hk. split; [done|]. split.
  - intros k x Hx.
    apply lookup_delete_Some in Hx as [Hk1 Hx].
    apply lookup_delete_Some in Hx as [Hk2 Hx].
    pose proof (Hp _ _ Hx) as Hx'.
    rewrite lookup_delete_ne by (intros ->; congruence).
    rewrite lookup_delete_ne by (intros ->; congruence). done.
  - intros k Hx.
    apply lookup_delete_Some in Hx as [_ Hx].
    apply lookup_delete_Some in Hx as [_ Hx]. by apply (Hn k).
Qed.

Lemma delitem_if_present (key : K) (d : gmap K K) :
  paired d -> no_self_pair d ->
  exists d1,
    (if bool_decide (is_Some (d !! key)) then __delitem__ key d else (Done, d))
      = (Done, d1) /\
    paired d1 /\ no_self_pair d1 /\ d1 !! key = None /\
    (forall k, d1 !! k = if decide (k = key \/ d !! k = Some key) then None else d !! k).
Proof.
  intros Hp Hn. case_bool_decide as Hin.
  - destruct Hin as [v Hk].
    destruct (delitem_pair key v d Hp Hn Hk) as (Hd & Hp1 & Hn1).
    exists (delete key (delete v d)). split; [done|]. split; [done|]. split; [done|].
    split; [by rewrite lookup_delete_eq|].
    intros k. case_decide as Hc.
    + destruct Hc as [->|Hc]; [by rewrite lookup_delete_eq|].
      pose proof (Hp _ _ Hc) as Hc'. assert (k = v) as -> by congruence.
      destruct (decide (v = key)) as [->|Hne]; [by rewrite lookup_delete_eq|].
      rewrite lookup_delete_ne by done. by rewrite lookup_delete_eq.
    + rewrite lookup_delete_ne by (intros ->; tauto).
      rewrite lookup_delete_ne; [done|].
      intros ->. apply Hc. right. by apply Hp.
  - exists d. split; [done|]. split; [done|]. split; [done|].
    assert (d !! key = None) as Hnone.
    { destruct (d !! key) eqn:E; [|done]. exfalso. apply Hin. eauto. }
    split; [done|]. intros k. case_decide as Hc; [|done].
    destruct Hc as [->|Hc]; [done|]. apply Hp in Hc. congruence.
Qed.

Lemma setitem_paired (key value : K) (d : gmap K K) :
  paired d -> no_self_pair d ->
  exists d2,
    __setitem__ key value d
      = (Done, dict_setitem value key (dict_setitem key value d2)) /\
    paired d2 /\ no_self_pair d2 /\ d2 !! key = None /\ d2 !! value = None /\
    (forall k, k <> key -> k <> value ->
       d2 !! k = if decide (d !! k = Some key \/ d !! k = Some value)
                 then None else d !! k).
Proof.
  intros Hp Hn.
  destruct (delitem_if_present key d Hp Hn) as (d1 & E1 & Hp1 & Hn1 & Hk1 & L1).
  destruct (delitem_if_present value d1 Hp1 Hn1) as (d2 & E2 & Hp2 & Hn2 & Hk2 & L2).
  exists d2. unfold __setitem__. rewrite E1, E2. split; [done|].
  split; [done|]. split; [done|]. split; [|split; [done|]].
  - rewrite L2. case_decide; [done|]. exact Hk1.
  - intros k Hk Hv. rewrite L2, L1.
    repeat destruct (decide _); try done; exfalso; intuition congruence.
Qed.

Lemma setitem_result (key value : K) (d : gmap K K) :
  paired d -> no_self_pair d ->
  exists d',
    __setitem__ key value d = (Done, d') /\
    d' !! key = Some value /\ d' !! value = Some key /\
    (forall k, k <> key -> k <> value ->
       d' !! k = if decide (d !! k = Some key \/ d !! k = Some value)
                 then None else d !! k) /\
    paired d' /\ (key <> value -> no_self_pair d').
Proof.
  intros Hp Hn.
  destruct (setitem_paired key value d Hp Hn) as (d2 & E & Hp2 & Hn2 & Hk & Hv & L).
  eexists. split; [exact E|]. unfold dict_setitem.
  split; [|split; [by rewrite lookup_insert_eq|split; [|split]]].
  - destruct (decide (value = key)) as [->|Hne]; [by rewrite lookup_insert_eq|].
    rewrite lookup_insert_ne by done. by rewrite lookup_insert_eq.
  - intros k Hk' Hv'. rewrite !lookup_insert_ne by done. by apply L.
  - intros k v Hx.
    destruct (decide (k = value)) as [->|Hkv].
    + rewrite lookup_insert_eq in Hx. injection Hx as <-.
      destruct (decide (value = key)) as [->|Hne]; [by rewrite lookup_insert_eq|].
      rewrite lookup_insert_ne by done. by rewrite lookup_insert_eq.
    + rewrite lookup_insert_ne in Hx by done.
      destruct (decide (k = key)) as [->|Hkk].
      * rewrite lookup_insert_eq in Hx. injection Hx as <-.
        by rewrite lookup_insert_eq.
      * rewrite lookup_insert_ne in Hx by done.
        pose proof (Hp2 _ _ Hx) as Hx'.
        rewrite !lookup_insert_ne by (intros ->; congruence). done.
  - intros Hne k Hx.
    destruct (decide (k = value)) as [->|Hkv].
    + rewrite lookup_insert_eq in Hx. congruence.
    + rewrite lookup_insert_ne in Hx by done.
      destruct (decide (k = key)) as [->|Hkk].
      * rewrite lookup_insert_eq in Hx. congruence.
      * rewrite lookup_insert_ne in Hx by done. by apply (Hn2 k).
Qed.

(** X14: on a dict that is paired and has no key paired with itself, the
    assignment [d[key] = value] does not raise; afterwards [key] maps to
    [value] and [value] to [key], the former partners of [key] and of
    [value] are no longer keys, every other entry is as before, and the
    dict is paired again. *)
Theorem setitem_connects (key value : K) (d : gmap K K) :
  paired d -> no_self_pair d ->
  exists d',
    __setitem__ key value d = (Done, d') /\
    d' !! key = Some value /\ d' !! value = Some key /\
    (forall k, k <> key -> k <> value ->
       d' !! k = if decide (d !! k = Some key \/ d !! k = Some value)
                 then None else d !! k) /\
    paired d' /\ (key <> value -> no_self_pair d').
Proof. apply setitem_result. Qed.

(** X15: [del d[key]] on a dict that is paired and has no key paired with
    itself removes [key] and its partner and nothing else; when [key] is not
    in the dict it raises [KeyError] and the dict is unchanged. *)
Theorem delitem_removes_pair (key : K) (d : gmap K K) :
  paired d -> no_self_pair d ->
  (forall v, d !! key = Some v ->
     exists d',
       __delitem__ key d = (Done, d') /\
       d' !! key = None /\ d' !! v = None /\
       (forall k, k <> key -> k <> v -> d' !! k = d !! k) /\
       paired d' /\ no_self_pair d') /\
  (d !! key = None -> __delitem__ key d = (KeyError, d)).
Proof.
  intros Hp Hn. split.
  - intros v Hk. destruct (delitem_pair key v d Hp Hn Hk) as (E & Hp' & Hn').
    eexists. split; [exact E|]. split; [by rewrite lookup_delete_eq|].
    split; [|split; [|done]].
    + destruct (decide (v = key)) as [->|Hne]; [by rewrite lookup_delete_eq|].
      rewrite lookup_delete_ne by done. by rewrite lookup_delete_eq.
    + intros k Hk1 Hk2. by rewrite !lookup_delete_ne.
  - intros Hk. unfold __delitem__. by rewrite Hk.
Qed.

(** X16: a key that is paired with itself cannot be deleted or reassigned:
    [del d[key]] and [d[key] = value] remove the entry and then raise
    [KeyError].  Such an entry is what [d[key] = key] creates. *)
Theorem self_pair_raises (key : K) (d : gmap K K) :
  (d !! key = Some key ->
   __delitem__ key d = (KeyError, delete key d) /\
   forall value, __setitem__ key value d = (KeyError, delete key d)) /\
  (paired d -> no_self_pair d ->
   exists d', __setitem__ key key d = (Done, d') /\ d' !! key = Some key).
Proof.
  split.
  - intros Hk.
    assert (__delitem__ key d = (KeyError, delete key d)) as E.
    { unfold __delitem__, dict_delitem. rewrite Hk, Hk.
      by rewrite lookup_delete_eq. }
    split; [exact E|]. intros value. unfold __setitem__.
    rewrite bool_decide_eq_true_2 by eauto. by rewrite E.
  - intros Hp Hn.
    destruct (setitem_result key key d Hp Hn) as (d' & E & Hk & _). eauto.
Qed.

(** X17: on a dict that is paired and has no key paired with itself,
    deleting [key], or [value], right after [d[key] = value] for two
    different objects that were not in the dict gives the dict back. *)
Theorem setitem_then_delitem (key value : K) (d : gmap K K) :
  paired d -> no_self_pair d ->
  d !! key = None -> d !! value = None -> key <> value ->
  exists d',
    __setitem__ key value d = (Done, d') /\
    __delitem__ key d' = (Done, d) /\
    __delitem__ value d' = (Done, d).
Proof.
  intros Hp Hn Hk Hv Hne.
  assert (__setitem__ key value d = (Done, <[value := key]> (<[key := value]> d)))
    as E.
  { unfold __setitem__, dict_setitem.
    rewrite bool_decide_eq_false_2 by (rewrite Hk; by intros [? ?]).
    rewrite bool_decide_eq_false_2 by (rewrite Hv; by intros [? ?]). done. }
  eexists. split; [exact E|].
  assert (<[value := key]> (<[key := value]> d) !! key = Some value) as Lk.
  { rewrite lookup_insert_ne by done. by rewrite lookup_insert_eq. }
  assert (<[value := key]> (<[key := value]> d) !! value = Some key) as Lv
    by (by rewrite lookup_insert_eq).
  unfold __delitem__, dict_delitem. rewrite Lk, Lv.
  rewrite lookup_delete_ne by done. rewrite Lk.
  rewrite lookup_delete_ne by done. rewrite Lv.
  split; f_equal; apply map_eq; intros k.
  - destruct (decide (k = key)) as [->|?]; [by rewrite lookup_delete_eq|].
    rewrite lookup_delete_ne by done.
    destruct (decide (k = value)) as [->|?]; [by rewrite lookup_delete_eq|].
    rewrite lookup_delete_ne by done. by rewrite !lookup_insert_ne.
  - destruct (decide (k = value)) as [->|?]; [by rewrite lookup_delete_eq|].
    rewrite lookup_delete_ne by done.
    destruct (decide (k = key)) as [->|?]; [by rewrite lookup_delete_eq|].
    rewrite lookup_delete_ne by done. by rewrite !lookup_insert_ne.
Qed.

Lemma assign_all_paired (kvs : list (K * K)) : forall d : gmap K K,
  paired d -> no_self_pair d -> Forall (fun kv => kv.1 <> kv.2) kvs ->
  exists d', assign_all kvs d = Some d' /\ paired d' /\ no_self_pair d'.
Proof.
  induction kvs as [|[key value] kvs IH]; intros d Hp Hn Hall; [eauto|].
  apply Forall_cons in Hall as [Hne Hall]. simpl in Hne.
  destruct (setitem_result key value d Hp Hn) as (d1 & E & _ & _ & _ & Hp1 & Hn1).
  cbn [assign_all]. rewrite E. apply IH; auto.
Qed.

(** X18: a new Bidict filled by assignments [d[key] = value] with
    [key != value] never raises, and in the result looking up a value gives
    back its key: [d[d[k]] == k] for every key [k]. *)
Theorem bidict_lookup_involution (kvs : list (K * K)) :
  Forall (fun kv => kv.1 <> kv.2) kvs ->
  exists d : gmap K K,
    assign_all kvs ∅ = Some d /\
    forall k v, d !! k = Some v -> d !! v = Some k /\ v <> k.
Proof.
  intros Hall.
  destruct (assign_all_paired kvs ∅) as (d & E & Hp & Hn); [done|done|done|].
  exists d. split; [exact E|]. intros k v Hk. split; [by apply Hp|].
  intros ->. by apply (Hn k).
Qed.

(** X19: a value belongs to one key only: after [d[k1] = v] and then
    [d[k2] = v] for another key [k2], the key [k1] is no longer in the dict
    (looking it up raises [KeyError]) and [v] is paired with [k2]. *)
Theorem second_key_takes_the_value (k1 k2 v : K) (d : gmap K K) :
  paired d -> no_self_pair d -> k1 <> k2 -> k1 <> v -> k2 <> v ->
  exists d1 d2,
    __setitem__ k1 v d = (Done, d1) /\
    __setitem__ k2 v d1 = (Done, d2) /\
    d2 !! k1 = None /\ d2 !! k2 = Some v /\ d2 !! v = Some k2.
Proof.
  intros Hp Hn H12 H1 H2.
  destruct (setitem_result k1 v d Hp Hn) as (d1 & E1 & Hk1 & Hv1 & _ & Hp1 & Hn1).
  destruct (setitem_result k2 v d1 Hp1 (Hn1 H1)) as (d2 & E2 & Hk2 & Hv2 & L2 & _).
  exists d1, d2. split; [exact E1|]. split; [exact E2|].
  split; [|split; [exact Hk2|exact Hv2]].
  rewrite L2 by done. rewrite decide_True; [done|]. by right.
Qed.
End BidictFacts.

Lemma empty_paired : Bidict.paired (∅ : gmap Z Z).
Proof. intros k v Hk. rewrite lookup_empty in Hk. discriminate. Defined.

Lemma empty_no_self_pair : Bidict.no_self_pair (∅ : gmap Z Z).
Proof. intros k Hk. rewrite lookup_empty in Hk. discriminate. Defined.

Lemma setitem_connects_witness :
  exists d' : gmap Z Z,
    Bidict.__setitem__ 1%Z 2%Z ∅ = (Bidict.Done, d') /\ d' !! 2%Z = Some 1%Z.
Proof.
  destruct (setitem_connects 1%Z 2%Z ∅ empty_paired empty_no_self_pair)
    as (d' & E & _ & Hv & _).
  exists d'. split; [exact E|exact Hv].
Defined.

Lemma delitem_removes_pair_witness :
  Bidict.__delitem__ 1%Z (∅ : gmap Z Z) = (Bidict.KeyError, ∅).
Proof.
  apply (proj2 (delitem_removes_pair 1%Z ∅ empty_paired empty_no_self_pair)).
  apply lookup_empty.
Defined.

Lemma self_pair_raises_witness :
  exists d' : gmap Z Z,
    Bidict.__setitem__ 1%Z 1%Z ∅ = (Bidict.Done, d') /\ d' !! 1%Z = Some 1%Z.
Proof.
  exact (proj2 (self_pair_raises 1%Z ∅) empty_paired empty_no_self_pair).
Defined.

Lemma setitem_then_delitem_witness :
  exists d' : gmap Z Z,
    Bidict.__setitem__ 1%Z 2%Z ∅ = (Bidict.Done, d') /\
    Bidict.__delitem__ 1%Z d' = (Bidict.Done, ∅) /\
    Bidict.__delitem__ 2%Z d' = (Bidict.Done, ∅).
Proof.
  apply (setitem_then_delitem 1%Z 2%Z ∅ empty_paired empty_no_self_pair);
    [apply lookup_empty|apply lookup_empty|discriminate].
Defined.

Lemma bidict_lookup_involution_witness :
  exists d : gmap Z Z,
    Bidict.assign_all [(1%Z, 2%Z); (3%Z, 2%Z)] ∅ = Some d /\
    forall k v, d !! k = Some v -> d !! v = Some k /\ v <> k.
Proof.
  apply (bidict_lookup_involution [(1%Z, 2%Z); (3%Z, 2%Z)]).
  repeat constructor; discriminate.
Defined.

Lemma second_key_takes_the_value_witness :
  exists d1 d2 : gmap Z Z,
    Bidict.__setitem__ 1%Z 3%Z ∅ = (Bidict.Done, d1) /\
    Bidict.__setitem__ 2%Z 3%Z d1 = (Bidict.Done, d2) /\
    d2 !! 1%Z = None /\ d2 !! 2%Z = Some 3%Z /\ d2 !! 3%Z = Some 2%Z.
Proof.
  apply (second_key_takes_the_value 1%Z 2%Z 3%Z ∅
           empty_paired empty_no_self_pair); discriminate.
Defined.
